(** * Typography and colour utilities of react-native-typography

    A shallow embedding of the colour-format validators
    (colorValidationUtils), the typography resolver (textStyleUtils) and
    the colour resolver (textColorUtils), with the properties of the
    package's specification stated and settled against them. *)

From Stdlib Require Import NArith ZArith Lia Ascii String.
From stdpp Require Import gmap strings list fin_maps pretty.

Open Scope N_scope.

(** ** JavaScript strings

    A JavaScript string is a sequence of UTF-16 code units; a code unit is
    modelled by its number. *)

Definition jsstring := list N.

(** An ASCII literal as a JavaScript string. *)
Fixpoint js (s : string) : jsstring :=
  match s with
  | EmptyString => []
  | String a s' => N_of_ascii a :: js s'
  end.

(** [s[i]] inside a template literal: the one-unit string at index [i], and
    the text of [undefined] out of range. *)
Definition charAt (s : jsstring) (i : nat) : jsstring :=
  match s !! i with
  | Some c => [c]
  | None => js "undefined"
  end.

(** ASCII part of [String.prototype.toLowerCase]: A-Z go to a-z. *)
Definition asciiLower (c : N) : N :=
  if (65 <=? c) && (c <=? 90) then c + 32 else c.

Definition asciiUpper (c : N) : N :=
  if (97 <=? c) && (c <=? 122) then c - 32 else c.

(** ** Regular expressions

    The four patterns of COLOR_PATTERNS use literals, character classes,
    concatenation, alternation, [?], [*] and bounded repetition, all between
    [^] and [$]. [RegExp.prototype.test] on such a pattern decides whether
    the whole string belongs to the language of the body; the body is
    modelled by a syntax tree and [test] by Brzozowski derivatives. *)

Module Regex.

Inductive regex : Type :=
| Void
| Eps
| Class (ranges : list (N * N))
| Cat (r1 r2 : regex)
| Alt (r1 r2 : regex)
| Star (r : regex).

Definition in_class (c : N) (ranges : list (N * N)) : bool :=
  existsb (fun rg => (fst rg <=? c) && (c <=? snd rg)) ranges.

(** Derived forms. *)
Definition Lit (c : N) : regex := Class [(c, c)].
Definition Opt (r : regex) : regex := Alt r Eps.

Fixpoint Times (n : nat) (r : regex) : regex :=
  match n with
  | O => Eps
  | S n' => Cat r (Times n' r)
  end.

Fixpoint UpTo (n : nat) (r : regex) : regex :=
  match n with
  | O => Eps
  | S n' => Opt (Cat r (UpTo n' r))
  end.

(** [r{lo,hi}] *)
Definition Between (lo hi : nat) (r : regex) : regex :=
  Cat (Times lo r) (UpTo (hi - lo) r).

Fixpoint Str (s : jsstring) : regex :=
  match s with
  | [] => Eps
  | c :: s' => Cat (Lit c) (Str s')
  end.

(** A literal under the [i] flag. Without the [u] flag ECMAScript compares
    the upper-case images of pattern and input units, and never lets a unit
    above 127 stand for an ASCII one: an ASCII letter matches exactly its two
    cases. *)
Definition LitCI (c : N) : regex :=
  Class [(asciiLower c, asciiLower c); (asciiUpper c, asciiUpper c)].

Fixpoint StrCI (s : jsstring) : regex :=
  match s with
  | [] => Eps
  | c :: s' => Cat (LitCI c) (StrCI s')
  end.

Fixpoint AltList (rs : list regex) : regex :=
  match rs with
  | [] => Void
  | [r] => r
  | r :: rs' => Alt r (AltList rs')
  end.

(** Character classes of the patterns. *)
Definition digit : regex := Class [(48, 57)].
Definition hexdigit : regex := Class [(65, 70); (97, 102); (48, 57)].
(** [\s]: WhiteSpace and LineTerminator of ECMAScript. *)
Definition whitespace_ranges : list (N * N) :=
  [(9, 13); (32, 32); (160, 160); (5760, 5760); (8192, 8202);
   (8232, 8233); (8239, 8239); (8287, 8287); (12288, 12288); (65279, 65279)].
Definition space : regex := Class whitespace_ranges.

Fixpoint nullable (r : regex) : bool :=
  match r with
  | Void => false
  | Eps => true
  | Class _ => false
  | Cat r1 r2 => nullable r1 && nullable r2
  | Alt r1 r2 => nullable r1 || nullable r2
  | Star _ => true
  end.

(** Constructors that drop the empty language, so derivatives stay small. *)
Definition cat (r1 r2 : regex) : regex :=
  match r1, r2 with
  | Void, _ => Void
  | _, Void => Void
  | Eps, _ => r2
  | _, _ => Cat r1 r2
  end.

Definition alt (r1 r2 : regex) : regex :=
  match r1, r2 with
  | Void, _ => r2
  | _, Void => r1
  | _, _ => Alt r1 r2
  end.

Fixpoint deriv (c : N) (r : regex) : regex :=
  match r with
  | Void => Void
  | Eps => Void
  | Class ranges => if in_class c ranges then Eps else Void
  | Cat r1 r2 =>
      alt (cat (deriv c r1) r2) (if nullable r1 then deriv c r2 else Void)
  | Alt r1 r2 => alt (deriv c r1) (deriv c r2)
  | Star r1 => cat (deriv c r1) (Star r1)
  end.

(** [/^r$/.test(s)] *)
Fixpoint test (r : regex) (s : jsstring) : bool :=
  match s with
  | [] => nullable r
  | c :: s' => test (deriv c r) s'
  end.

(** The language of a pattern, as a relation. *)
Inductive Matches : regex -> jsstring -> Prop :=
| MEps : Matches Eps []
| MClass ranges c : in_class c ranges = true -> Matches (Class ranges) [c]
| MCat r1 r2 s1 s2 :
    Matches r1 s1 -> Matches r2 s2 -> Matches (Cat r1 r2) (s1 ++ s2)
| MAltL r1 r2 s : Matches r1 s -> Matches (Alt r1 r2) s
| MAltR r1 r2 s : Matches r2 s -> Matches (Alt r1 r2) s
| MStarNil r : Matches (Star r) []
| MStarApp r s1 s2 :
    Matches r s1 -> Matches (Star r) s2 -> Matches (Star r) (s1 ++ s2).

End Regex.

(** ** colorValidationUtils *)

Module ColorValidation.
Import Regex.

Definition isDigit (c : N) : bool := (48 <=? c) && (c <=? 57).

(** [s.match(/\d+/g)]: the maximal runs of digits from left to right, or
    [null] ([None]) when there is none. *)
Fixpoint digitRuns (s : jsstring) : list jsstring :=
  match s with
  | [] => []
  | c :: s' =>
      if isDigit c then
        match s' with
        | [] => [[c]]
        | d :: _ =>
            if isDigit d then
              match digitRuns s' with
              | run :: runs => (c :: run) :: runs
              | [] => [[c]]
              end
            else [c] :: digitRuns s'
        end
      else digitRuns s'
  end.

Definition match_digits (s : jsstring) : option (list jsstring) :=
  match digitRuns s with
  | [] => None
  | runs => Some runs
  end.

(** [Number] on a run of decimal digits. The double that JavaScript computes
    is exact below 2^53 and compares with 255, 360 and 100 as the exact value
    does above it. *)
Definition Number (ds : jsstring) : N :=
  fold_left (fun acc c => 10 * acc + (c - 48)) ds 0.

Definition ws : regex := Star space.
(** [\d{1,3}%?] and [\d{1,3}%] *)
Definition rgb_channel : regex := Cat (Between 1 3 digit) (Opt (Lit 37)).
Definition pct_channel : regex := Cat (Between 1 3 digit) (Lit 37).
(** The optional alpha group: a comma, white space, the text [[01]?\.?\d*],
    white space. *)
Definition alpha_text : regex :=
  Cat (Opt (Class [(48, 49)])) (Cat (Opt (Lit 46)) (Star digit)).
Definition alpha_part : regex :=
  Opt (Cat (Lit 44) (Cat ws (Cat alpha_text ws))).

(** COLOR_PATTERNS.hex: [/^#([A-Fa-f0-9]{3}|[A-Fa-f0-9]{6})$/] *)
Definition pattern_hex : regex :=
  Cat (Lit 35) (Alt (Times 3 hexdigit) (Times 6 hexdigit)).

(** COLOR_PATTERNS.rgb *)
Definition pattern_rgb : regex :=
  Cat (Str (js "rgb")) (Cat (Opt (Lit 97)) (Cat (Lit 40)
  (Cat ws (Cat rgb_channel (Cat ws (Cat (Lit 44)
  (Cat ws (Cat rgb_channel (Cat ws (Cat (Lit 44)
  (Cat ws (Cat rgb_channel (Cat ws
  (Cat alpha_part (Lit 41))))))))))))))).

(** COLOR_PATTERNS.hsl *)
Definition pattern_hsl : regex :=
  Cat (Str (js "hsl")) (Cat (Opt (Lit 97)) (Cat (Lit 40)
  (Cat ws (Cat (Between 1 3 digit) (Cat ws (Cat (Lit 44)
  (Cat ws (Cat pct_channel (Cat ws (Cat (Lit 44)
  (Cat ws (Cat pct_channel (Cat ws
  (Cat alpha_part (Lit 41))))))))))))))).

Definition color_names : list string :=
  ["red"; "blue"; "green"; "yellow"; "orange"; "purple"; "pink"; "brown";
   "black"; "white"; "gray"; "grey"; "transparent"; "inherit"; "initial";
   "unset"; "currentcolor"]%string.

(** COLOR_PATTERNS.named, with the [i] flag *)
Definition pattern_named : regex :=
  AltList (map (fun n => StrCI (js n)) color_names).

Definition isValidHexColor (color : jsstring) : bool :=
  test pattern_hex color.

Definition isValidRgbColor (color : jsstring) : bool :=
  if negb (test pattern_rgb color) then false
  else
    match match_digits color with
    | None => false
    | Some runs =>
        if (length runs <? 3)%nat then false
        else
          match map Number runs with
          | r :: g :: b :: _ =>
              (0 <=? r) && (r <=? 255) && (0 <=? g) && (g <=? 255)
              && (0 <=? b) && (b <=? 255)
          | _ => false
          end
    end.

Definition isValidHslColor (color : jsstring) : bool :=
  if negb (test pattern_hsl color) then false
  else
    match match_digits color with
    | None => false
    | Some runs =>
        if (length runs <? 3)%nat then false
        else
          match map Number runs with
          | h :: s :: l :: _ =>
              (0 <=? h) && (h <=? 360) && (0 <=? s) && (s <=? 100)
              && (0 <=? l) && (l <=? 100)
          | _ => false
          end
    end.

Definition isValidNamedColor (color : jsstring) : bool :=
  test pattern_named color.

Definition isValidColor (color : jsstring) : bool :=
  isValidHexColor color || isValidRgbColor color
  || isValidHslColor color || isValidNamedColor color.

Inductive ColorFormat : Type := hex | rgb | hsl | named | unknown.

Definition getColorFormat (color : jsstring) : ColorFormat :=
  if isValidHexColor color then hex
  else if isValidRgbColor color then rgb
  else if isValidHslColor color then hsl
  else if isValidNamedColor color then named
  else unknown.

(** [toLowerCase] is the host's [String.prototype.toLowerCase]; the
    development assumes of it only what it does on the strings at hand. *)
Definition normalizeColor (toLowerCase : jsstring -> jsstring)
    (color : jsstring) : jsstring :=
  if negb (isValidColor color) then color
  else if isValidHexColor color && (length color =? 4)%nat then
    let r := charAt color 1 in
    let g := charAt color 2 in
    let b := charAt color 3 in
    js "#" ++ r ++ r ++ g ++ g ++ b ++ b
  else toLowerCase color.

End ColorValidation.

(** ** Token tables, caches and the resolvers' effects

    The resolvers receive the token table by reference, read two of its
    fields and keep one module-level [Map] each. A [World] holds the
    caller-owned token objects, the two caches, and what the default branch
    of the colour mapper touches (the build mode and the console). *)

Module Resolver.

(** A resolved style. Font sizes are integers, as in the tables of the
    package; the cache key needs of a size only its decimal text. *)
Record TextStyle : Type := {
  fontSize : Z;
  fontWeight : jsstring
}.

(** DesignTokens. [colors] and [typography] are the two fields the package
    reads; such a field is [None] when it is [null], [undefined] or missing.
    The other fields (spacing, shadows, borderRadius, iconSizes, opacity,
    avatarSizes, borders) are kept by name. A table is a plain object: the
    map holds its own properties, which [Object.keys] counts, and behind
    them a read by name finds the properties of Object.prototype (see
    [getProperty]). *)
Record DesignTokens : Type := {
  colors : option (gmap jsstring jsstring);
  typography : option (gmap jsstring TextStyle);
  otherFields : gmap jsstring (gmap jsstring jsstring)
}.

(** What a read [tokens.typography[name]] can yield besides [undefined]: an
    entry of the table, or the member of Object.prototype that every plain
    object inherits under that name (a function, or the prototype itself for
    "__proto__"); both are truthy. *)
Inductive member : Type :=
| Style (style : TextStyle)
| Inherited (name : jsstring).

Definition loc := positive.

Record World : Type := {
  store : gmap loc DesignTokens;
  typographyCache : gmap jsstring (option member);
  colorCache : gmap jsstring (option jsstring);
  production : bool;
  console : list jsstring
}.

(** What a call can throw: [new Error(message)], or the engine's TypeError
    on reading a property of [null] or [undefined]. *)
Inductive exn : Type :=
| Error (message : jsstring)
| TypeError.

Inductive outcome (A : Type) : Type :=
| Return (a : A)
| Throw (e : exn).
Arguments Return {A} a.
Arguments Throw {A} e.

(** State and exceptions. *)
Definition M (A : Type) : Type := World -> outcome A * World.

#[export] Instance M_ret : MRet M := fun A a w => (Return a, w).
#[export] Instance M_bind : MBind M := fun A B k m w =>
  match m w with
  | (Return a, w') => k a w'
  | (Throw e, w') => (Throw e, w')
  end.

Definition throw {A : Type} (e : exn) : M A :=
  fun w => (Throw e, w).

(** Following a reference; [null] and [undefined] are [None]. *)
Definition lookupTokens (w : World) (tokens : option loc)
    : option DesignTokens :=
  tokens ≫= fun l => store w !! l.

Definition deref (tokens : option loc) : M (option DesignTokens) :=
  fun w => (Return (lookupTokens w tokens), w).

Definition typographyCache_has (key : jsstring) : M bool :=
  fun w => (Return (bool_decide (is_Some (typographyCache w !! key))), w).
Definition typographyCache_get (key : jsstring) : M (option member) :=
  fun w => (Return (mjoin (typographyCache w !! key)), w).
Definition typographyCache_set (key : jsstring) (v : option member)
    : M unit :=
  fun w => (Return tt,
            {| store := store w;
               typographyCache := <[key := v]> (typographyCache w);
               colorCache := colorCache w;
               production := production w;
               console := console w |}).

Definition colorCache_has (key : jsstring) : M bool :=
  fun w => (Return (bool_decide (is_Some (colorCache w !! key))), w).
Definition colorCache_get (key : jsstring) : M (option jsstring) :=
  fun w => (Return (mjoin (colorCache w !! key)), w).
Definition colorCache_set (key : jsstring) (v : option jsstring) : M unit :=
  fun w => (Return tt,
            {| store := store w;
               typographyCache := typographyCache w;
               colorCache := <[key := v]> (colorCache w);
               production := production w;
               console := console w |}).

(** [process.env.NODE_ENV !== 'production'] *)
Definition notProduction : M bool :=
  fun w => (Return (negb (production w)), w).
Definition console_warn (message : jsstring) : M unit :=
  fun w => (Return tt,
            {| store := store w;
               typographyCache := typographyCache w;
               colorCache := colorCache w;
               production := production w;
               console := console w ++ [message] |}).

(** Template substitution of a string or [undefined]. *)
Definition showString (v : option jsstring) : jsstring :=
  match v with
  | Some s => s
  | None => js "undefined"
  end.

(** *** textStyleUtils *)

(** The property names of Object.prototype (ECMAScript with its Annex B). *)
Definition objectPrototypeNames : list jsstring :=
  map js
    ["constructor"; "__defineGetter__"; "__defineSetter__"; "hasOwnProperty";
     "__lookupGetter__"; "__lookupSetter__"; "isPrototypeOf";
     "propertyIsEnumerable"; "toString"; "valueOf"; "__proto__";
     "toLocaleString"]%string.

Definition inherits (name : jsstring) : bool :=
  bool_decide (name ∈ objectPrototypeNames).

(** [tokens.typography[name]]: the own entry, else the inherited member,
    else [undefined]. *)
Definition getProperty (typo : gmap jsstring TextStyle) (name : jsstring)
    : option member :=
  match typo !! name with
  | Some style => Some (Style style)
  | None => if inherits name then Some (Inherited name) else None
  end.

(** MaterialTypographyMapper.getStyle:
    [tokens.typography[variant] || tokens.typography.bodyLarge]; an entry
    and an inherited member are objects, hence truthy. *)
Definition getStyle (variant : jsstring) (typo : gmap jsstring TextStyle)
    : option member :=
  match getProperty typo variant with
  | Some found => Some found
  | None => getProperty typo (js "bodyLarge")
  end.

(** [tokens.typography.bodyLarge?.fontSize || 16] *)
Definition bodyLargeFontSize (typo : gmap jsstring TextStyle) : Z :=
  match typo !! js "bodyLarge" with
  | Some style => if (fontSize style =? 0)%Z then 16%Z else fontSize style
  | None => 16%Z
  end.

Definition typographyCacheKey (variant : jsstring)
    (typo : gmap jsstring TextStyle) : jsstring :=
  variant ++ js "_" ++ js (pretty (size typo)) ++ js "_"
  ++ js (pretty (bodyLargeFontSize typo)).

Definition typographyError : jsstring :=
  js "Invalid design tokens: tokens and tokens.typography are required".

Definition clearTypographyCache : M unit :=
  fun w => (Return tt,
            {| store := store w;
               typographyCache := ∅;
               colorCache := colorCache w;
               production := production w;
               console := console w |}).

Definition getTextStyle (variant : jsstring) (tokens : option loc)
    : M (option member) :=
  tk ← deref tokens;
  match tk ≫= typography with
  | None => throw (Error typographyError)
  | Some typo =>
      let cacheKey := typographyCacheKey variant typo in
      hit ← typographyCache_has cacheKey;
      if hit : bool then typographyCache_get cacheKey
      else
        let resolvedStyle := getStyle variant typo in
        _ ← typographyCache_set cacheKey resolvedStyle;
        mret resolvedStyle
  end.

(** *** textColorUtils *)

Definition COLOR_VARIANT_SET : gset jsstring :=
  list_to_set (map js
    ["textPrimary"; "textSecondary"; "textTertiary"; "textDisabled";
     "textInverse"; "onSurface"; "onBackground"; "onPrimary"; "onSecondary";
     "onSuccess"; "onError"; "onWarning"; "onInfo"; "success"; "error";
     "warning"; "info"; "primary"; "secondary"; "tertiary"; "disabled";
     "inverse"; "surfaceVariant"]%string).

Definition isColorVariant (value : jsstring) : bool :=
  bool_decide (value ∈ COLOR_VARIANT_SET).

(** The cases of the switch of MaterialColorMapper.getColor, in order: the
    case label and the field of [tokens.colors] it returns. *)
Definition colorCases : list (string * string) :=
  [("textPrimary", "textPrimary"); ("textSecondary", "textSecondary");
   ("textTertiary", "textTertiary"); ("textDisabled", "textDisabled");
   ("textInverse", "textInverse");
   ("onSurface", "onSurface"); ("onBackground", "onBackground");
   ("onPrimary", "onPrimary"); ("onSecondary", "onSecondary");
   ("onSuccess", "onSuccess"); ("onError", "onError");
   ("onWarning", "onWarning"); ("onInfo", "onInfo");
   ("success", "success"); ("error", "error"); ("warning", "warning");
   ("info", "info");
   ("primary", "textPrimary"); ("secondary", "textSecondary");
   ("tertiary", "textTertiary"); ("disabled", "textDisabled");
   ("inverse", "textInverse"); ("surfaceVariant", "textSecondary")]%string.

Fixpoint switchCase (color : jsstring) (cases : list (string * string))
    : option string :=
  match cases with
  | [] => None
  | (label, field) :: rest =>
      if bool_decide (color = js label) then Some field
      else switchCase color rest
  end.

Definition getColor (color : jsstring) (cols : gmap jsstring jsstring)
    : M (option jsstring) :=
  match switchCase color colorCases with
  | Some field => mret (cols !! js field)
  | None =>
      dev ← notProduction;
      _ ← (if dev : bool
           then console_warn (js "Unknown color variant: " ++ color)
           else mret tt);
      mret (cols !! js "textPrimary")
  end.

Definition colorCacheKey (color : jsstring) (cols : gmap jsstring jsstring)
    : jsstring :=
  color ++ js "_" ++ js (pretty (size cols)) ++ js "_"
  ++ showString (cols !! js "textPrimary").

Definition colorError : jsstring :=
  js "Invalid design tokens: tokens and tokens.colors are required".

Definition clearColorCache : M unit :=
  fun w => (Return tt,
            {| store := store w;
               typographyCache := typographyCache w;
               colorCache := ∅;
               production := production w;
               console := console w |}).

(** [color] is a string or [undefined]; the empty string is falsy. *)
Definition getTextColor (color : option jsstring) (tokens : option loc)
    : M (option jsstring) :=
  tk ← deref tokens;
  match tk ≫= colors with
  | None => throw (Error colorError)
  | Some cols =>
      match color with
      | None | Some [] => mret (cols !! js "textPrimary")
      | Some c =>
          if negb (isColorVariant c) then mret (Some c)
          else
            let cacheKey := colorCacheKey c cols in
            hit ← colorCache_has cacheKey;
            if hit : bool then colorCache_get cacheKey
            else
              resolvedColor ← getColor c cols;
              _ ← colorCache_set cacheKey resolvedColor;
              mret resolvedColor
      end
  end.

(** *** The earlier revision of textColorUtils

    The copy of getTextColor without cache and without guard: it builds the
    colour map from [tokens.colors] and answers [colorMap[color] || color].
    The map has the labels and fields of [colorCases]. *)
Module Legacy.

(** [validVariants.includes(value)] *)
Definition validVariants : list jsstring :=
  map js
    ["textPrimary"; "textSecondary"; "textTertiary"; "textDisabled";
     "textInverse"; "onSurface"; "onBackground"; "onPrimary"; "onSecondary";
     "onSuccess"; "onError"; "onWarning"; "onInfo"; "success"; "error";
     "warning"; "info"; "primary"; "secondary"; "tertiary"; "disabled";
     "inverse"; "surfaceVariant"]%string.

Definition isColorVariant (value : jsstring) : bool :=
  existsb (fun v => bool_decide (v = value)) validVariants.

Definition getTextColor (color : option jsstring) (tokens : option loc)
    : M (option jsstring) :=
  tk ← deref tokens;
  match color with
  | None | Some [] =>
      match tk ≫= colors with
      | None => throw TypeError
      | Some cols => mret (cols !! js "textPrimary")
      end
  | Some c =>
      if negb (isColorVariant c) then mret (Some c)
      else
        match tk ≫= colors with
        | None => throw TypeError
        | Some cols =>
            match switchCase c colorCases ≫= (fun field => cols !! js field)
            with
            | Some (u :: v) => mret (Some (u :: v))
            | _ => mret (Some c)
            end
        end
  end.

End Legacy.

(** *** Vocabulary of the statements *)

(** The token field a colour name stands for, and the value the mapper
    returns for it. *)
Definition colorField (color : jsstring) : string :=
  default "textPrimary"%string (switchCase color colorCases).

Definition resolveColor (color : jsstring) (cols : gmap jsstring jsstring)
    : option jsstring :=
  cols !! js (colorField color).

(** A cache agrees with a table when every entry stored under a key of that
    table is what the table resolves to. *)
Definition typographyCacheFresh (typo : gmap jsstring TextStyle) (w : World)
    : Prop :=
  forall variant v,
    typographyCache w !! typographyCacheKey variant typo = Some v ->
    v = getStyle variant typo.

Definition colorCacheFresh (cols : gmap jsstring jsstring) (w : World)
    : Prop :=
  forall color v,
    colorCache w !! colorCacheKey color cols = Some v ->
    v = resolveColor color cols.

(** *** theme.d.ts: the default table of createMockDesignTokens *)

Definition style (size : Z) (weight : string) : TextStyle :=
  {| fontSize := size; fontWeight := js weight |}.

Definition defaultColors : gmap jsstring jsstring :=
  list_to_map (map (fun kv => (js (fst kv), js (snd kv)))
    [("textPrimary", "#000000"); ("textSecondary", "#666666");
     ("textTertiary", "#999999"); ("textDisabled", "#CCCCCC");
     ("textInverse", "#FFFFFF"); ("onSurface", "#000000");
     ("onBackground", "#000000"); ("onPrimary", "#FFFFFF");
     ("onSecondary", "#FFFFFF"); ("onSuccess", "#FFFFFF");
     ("onError", "#FFFFFF"); ("onWarning", "#000000");
     ("onInfo", "#FFFFFF"); ("success", "#4CAF50"); ("error", "#F44336");
     ("warning", "#FF9800"); ("info", "#2196F3"); ("primary", "#2196F3");
     ("secondary", "#FF9800"); ("tertiary", "#9C27B0");
     ("surface", "#FFFFFF"); ("surfaceVariant", "#F5F5F5");
     ("background", "#FFFFFF")]%string).

Definition defaultTypography : gmap jsstring TextStyle :=
  list_to_map (map (fun kv => (js (fst kv), snd kv))
    [("displayLarge", style 57 "400"); ("displayMedium", style 45 "400");
     ("displaySmall", style 36 "400"); ("headlineLarge", style 32 "400");
     ("headlineMedium", style 28 "400"); ("headlineSmall", style 24 "400");
     ("titleLarge", style 22 "500"); ("titleMedium", style 16 "500");
     ("titleSmall", style 14 "500"); ("bodyLarge", style 16 "400");
     ("bodyMedium", style 14 "400"); ("bodySmall", style 12 "400");
     ("labelLarge", style 14 "500"); ("labelMedium", style 12 "500");
     ("labelSmall", style 11 "500")]%string).

Definition defaultOtherFields : gmap jsstring (gmap jsstring jsstring) :=
  list_to_map (map (fun k => (js k, ∅))
    ["spacing"; "shadows"; "borderRadius"; "iconSizes"; "opacity";
     "avatarSizes"; "borders"]%string).

Definition defaultTokens : DesignTokens :=
  {| colors := Some defaultColors;
     typography := Some defaultTypography;
     otherFields := defaultOtherFields |}.

(** The default table with another titleSmall entry, with another weight of
    bodyLarge, and with another textSecondary: each keeps the number of
    entries, the font size of bodyLarge and the value of textPrimary. *)
Definition restyledTokens : DesignTokens :=
  {| colors := Some defaultColors;
     typography :=
       Some (<[js "titleSmall" := style 15 "500"]> defaultTypography);
     otherFields := defaultOtherFields |}.

Definition reweightedTokens : DesignTokens :=
  {| colors := Some defaultColors;
     typography :=
       Some (<[js "bodyLarge" := style 16 "700"]> defaultTypography);
     otherFields := defaultOtherFields |}.

Definition recoloredTokens : DesignTokens :=
  {| colors := Some (<[js "textSecondary" := js "#777777"]> defaultColors);
     typography := Some defaultTypography;
     otherFields := defaultOtherFields |}.

(** Two tables held by a caller, and no cache entry yet. *)
Definition worldOf (t1 t2 : DesignTokens) : World :=
  {| store := <[1%positive := t1]> (<[2%positive := t2]> ∅);
     typographyCache := ∅;
     colorCache := ∅;
     production := false;
     console := [] |}.

End Resolver.


(** ** The strings of the rgb pattern, piece by piece

    The pieces the rgb pattern reads, with the string they spell; the
    theorems on isValidRgbColor are stated on them. *)

Module RgbText.
Import Regex ColorValidation.

(** [\d{1,3}%?] *)
Record channel : Type := {
  ch_digits : jsstring;
  ch_percent : bool
}.

(** [[01]?\.?\d*] *)
Record alpha : Type := {
  a_lead : option N;
  a_dot : bool;
  a_digits : jsstring
}.

Record rgbText : Type := {
  rt_a : bool;
  rt_w1 : jsstring;
  rt_c1 : channel;
  rt_w2 : jsstring;
  rt_w3 : jsstring;
  rt_c2 : channel;
  rt_w4 : jsstring;
  rt_w5 : jsstring;
  rt_c3 : channel;
  rt_w6 : jsstring;
  rt_alpha : option (jsstring * alpha * jsstring)
}.

Definition isSpace (c : N) : bool := in_class c whitespace_ranges.

Definition wf_channel (c : channel) : bool :=
  forallb isDigit (ch_digits c)
  && (1 <=? length (ch_digits c))%nat && (length (ch_digits c) <=? 3)%nat.

Definition wf_alpha (a : alpha) : bool :=
  match a_lead a with
  | Some d => (d =? 48) || (d =? 49)
  | None => true
  end && forallb isDigit (a_digits a).

Definition wf_alpha_group (g : option (jsstring * alpha * jsstring)) : bool :=
  match g with
  | Some (wa, a, wb) => forallb isSpace wa && wf_alpha a && forallb isSpace wb
  | None => true
  end.

Definition wf (t : rgbText) : bool :=
  forallb isSpace (rt_w1 t) && wf_channel (rt_c1 t)
  && forallb isSpace (rt_w2 t) && forallb isSpace (rt_w3 t)
  && wf_channel (rt_c2 t)
  && forallb isSpace (rt_w4 t) && forallb isSpace (rt_w5 t)
  && wf_channel (rt_c3 t)
  && forallb isSpace (rt_w6 t) && wf_alpha_group (rt_alpha t).

Definition render_channel (c : channel) : jsstring :=
  ch_digits c ++ (if ch_percent c then js "%" else []).

Definition render_alpha (a : alpha) : jsstring :=
  match a_lead a with Some d => [d] | None => [] end
  ++ (if a_dot a then js "." else []) ++ a_digits a.

Definition render_alpha_group (g : option (jsstring * alpha * jsstring))
    : jsstring :=
  match g with
  | Some (wa, a, wb) => js "," ++ wa ++ render_alpha a ++ wb
  | None => []
  end.

Definition render (t : rgbText) : jsstring :=
  js "rgb" ++ (if rt_a t then js "a" else []) ++ js "("
  ++ rt_w1 t ++ render_channel (rt_c1 t) ++ rt_w2 t ++ js ","
  ++ rt_w3 t ++ render_channel (rt_c2 t) ++ rt_w4 t ++ js ","
  ++ rt_w5 t ++ render_channel (rt_c3 t) ++ rt_w6 t
  ++ render_alpha_group (rt_alpha t) ++ js ")".

(** The numeric re-check of isValidRgbColor, on the digits of the three
    channels. *)
Definition channels_in_range (t : rgbText) : bool :=
  (Number (ch_digits (rt_c1 t)) <=? 255)
  && (Number (ch_digits (rt_c2 t)) <=? 255)
  && (Number (ch_digits (rt_c3 t)) <=? 255).

Definition nondigits (s : jsstring) : bool :=
  forallb (fun c => negb (isDigit c)) s.

Definition starts_nondigit (s : jsstring) : bool :=
  match s with
  | [] => true
  | c :: _ => negb (isDigit c)
  end.

Definition with_alpha (g : option (jsstring * alpha * jsstring))
    (t : rgbText) : rgbText :=
  {| rt_a := rt_a t; rt_w1 := rt_w1 t; rt_c1 := rt_c1 t; rt_w2 := rt_w2 t;
     rt_w3 := rt_w3 t; rt_c2 := rt_c2 t; rt_w4 := rt_w4 t;
     rt_w5 := rt_w5 t; rt_c3 := rt_c3 t; rt_w6 := rt_w6 t;
     rt_alpha := g |}.

(** "rgb(150%, 0%, 0%)", "rgba(0, 0, 0)" and the alpha group ", 9". *)
Definition rgb_150_percent : rgbText :=
  {| rt_a := false; rt_w1 := [];
     rt_c1 := {| ch_digits := js "150"; ch_percent := true |};
     rt_w2 := []; rt_w3 := js " ";
     rt_c2 := {| ch_digits := js "0"; ch_percent := true |};
     rt_w4 := []; rt_w5 := js " ";
     rt_c3 := {| ch_digits := js "0"; ch_percent := true |};
     rt_w6 := []; rt_alpha := None |}.

Definition rgb_black : rgbText :=
  {| rt_a := true; rt_w1 := [];
     rt_c1 := {| ch_digits := js "0"; ch_percent := false |};
     rt_w2 := []; rt_w3 := js " ";
     rt_c2 := {| ch_digits := js "0"; ch_percent := false |};
     rt_w4 := []; rt_w5 := js " ";
     rt_c3 := {| ch_digits := js "0"; ch_percent := false |};
     rt_w6 := []; rt_alpha := None |}.

Definition alpha_9 : option (jsstring * alpha * jsstring) :=
  Some (js " ", {| a_lead := None; a_dot := false; a_digits := js "9" |}, []).

End RgbText.

(** ** Checks on the character classes of a pattern

    Three checks that can be run on a pattern: its strings hold only ASCII
    units and white space; its strings hold no upper-case ASCII letter; its
    language is closed under the lowering of A-Z. *)

Module Lowering.
Import Regex RgbText.

Definition tame (c : N) : bool := (c <? 128) || isSpace c.

Definition range_tame (rg : N * N) : bool :=
  (snd rg <? 128)
  || existsb (fun sp => (fst sp <=? fst rg) && (snd rg <=? snd sp))
       whitespace_ranges.

Definition range_caseless (rg : N * N) : bool :=
  (snd rg <? 65) || (90 <? fst rg).

Definition upperCodes : list N := map N.of_nat (seq 65 26).

Definition class_lower_closed (ranges : list (N * N)) : bool :=
  forallb (fun c => implb (in_class c ranges) (in_class (c + 32) ranges))
    upperCodes.

Fixpoint classes (r : regex) : list (list (N * N)) :=
  match r with
  | Void | Eps => []
  | Class ranges => [ranges]
  | Cat r1 r2 | Alt r1 r2 => classes r1 ++ classes r2
  | Star r1 => classes r1
  end.

Definition tame_pattern (r : regex) : bool :=
  forallb (forallb range_tame) (classes r).
Definition caseless_pattern (r : regex) : bool :=
  forallb (forallb range_caseless) (classes r).
Definition lower_closed_pattern (r : regex) : bool :=
  forallb class_lower_closed (classes r).

End Lowering.

(** ** textStyleUtils: the variant names *)

Module Variants.

Definition TEXT_STYLE_VARIANT_SET : gset jsstring :=
  list_to_set (map js
    ["displayLarge"; "displayMedium"; "displaySmall"; "headlineLarge";
     "headlineMedium"; "headlineSmall"; "titleLarge"; "titleMedium";
     "titleSmall"; "bodyLarge"; "bodyMedium"; "bodySmall"; "labelLarge";
     "labelMedium"; "labelSmall"]%string).

Definition isTextStyleVariant (value : jsstring) : bool :=
  bool_decide (value ∈ TEXT_STYLE_VARIANT_SET).

Definition getAllTextStyleVariants : list jsstring :=
  map js
    ["displayLarge"; "displayMedium"; "displaySmall"; "headlineLarge";
     "headlineMedium"; "headlineSmall"; "titleLarge"; "titleMedium";
     "titleSmall"; "bodyLarge"; "bodyMedium"; "bodySmall"; "labelLarge";
     "labelMedium"; "labelSmall"]%string.

End Variants.

(** ** The strings of the hsl pattern

    The pieces are those of the rgb pattern; the hue carries no percent sign
    and the two other channels carry one. *)

Module HslText.
Import Regex ColorValidation RgbText.

Definition wf_hsl (t : rgbText) : bool :=
  wf t && negb (ch_percent (rt_c1 t)) && ch_percent (rt_c2 t)
  && ch_percent (rt_c3 t).

Definition render_hsl (t : rgbText) : jsstring :=
  js "hsl" ++ (if rt_a t then js "a" else []) ++ js "("
  ++ rt_w1 t ++ render_channel (rt_c1 t) ++ rt_w2 t ++ js ","
  ++ rt_w3 t ++ render_channel (rt_c2 t) ++ rt_w4 t ++ js ","
  ++ rt_w5 t ++ render_channel (rt_c3 t) ++ rt_w6 t
  ++ render_alpha_group (rt_alpha t) ++ js ")".

(** The numeric re-check of isValidHslColor. *)
Definition hsl_in_range (t : rgbText) : bool :=
  (Number (ch_digits (rt_c1 t)) <=? 360)
  && (Number (ch_digits (rt_c2 t)) <=? 100)
  && (Number (ch_digits (rt_c3 t)) <=? 100).

(** "hsl(360, 100%, 50%)" *)
Definition hsl_360 : rgbText :=
  {| rt_a := false; rt_w1 := [];
     rt_c1 := {| ch_digits := js "360"; ch_percent := false |};
     rt_w2 := []; rt_w3 := js " ";
     rt_c2 := {| ch_digits := js "100"; ch_percent := true |};
     rt_w4 := []; rt_w5 := js " ";
     rt_c3 := {| ch_digits := js "50"; ch_percent := true |};
     rt_w6 := []; rt_alpha := None |}.

End HslText.

(** ** Vocabulary for the hex and named patterns *)

Module HexText.
Import Regex.

(** [[A-Fa-f0-9]] *)
Definition isHexDigit (c : N) : bool :=
  in_class c [(65, 70); (97, 102); (48, 57)].

(** a-z *)
Definition isLowerLetter (c : N) : bool := (97 <=? c) && (c <=? 122).

End HexText.

(** ** Vocabulary for the caches *)

Module CacheText.
Import Resolver.

(** A run of calls of getTextStyle on one reference: the answers in order,
    and the state left. *)
Fixpoint getTextStyles (variants : list jsstring) (tokens : option loc)
    (w : World) : list (outcome (option member)) * World :=
  match variants with
  | [] => ([], w)
  | v :: vs =>
      let (r, w1) := getTextStyle v tokens w in
      let (rs, w2) := getTextStyles vs tokens w1 in
      (r :: rs, w2)
  end.

Fixpoint getTextColors (colours : list (option jsstring))
    (tokens : option loc) (w : World)
    : list (outcome (option jsstring)) * World :=
  match colours with
  | [] => ([], w)
  | c :: cs =>
      let (r, w1) := getTextColor c tokens w in
      let (rs, w2) := getTextColors cs tokens w1 in
      (r :: rs, w2)
  end.

(** What getTextColor answers from a table when no cache entry is in the
    way. *)
Definition resolveTextColor (color : option jsstring)
    (cols : gmap jsstring jsstring) : option jsstring :=
  match color with
  | None | Some [] => cols !! js "textPrimary"
  | Some c => if isColorVariant c then resolveColor c cols else Some c
  end.

End CacheText.

Import Regex ColorValidation Resolver RgbText Lowering.
Import Variants HslText HexText CacheText.

(** * Properties *)

(** ** The matcher decides the language *)

Section RegexFacts.

Lemma Matches_Void_inv s : Matches Void s -> False.
Proof. inversion 1. Qed.

Lemma Matches_Eps_inv s : Matches Eps s -> s = [].
Proof. inversion 1; reflexivity. Qed.

Lemma Matches_Class_inv ranges s :
  Matches (Class ranges) s -> exists c, s = [c] /\ in_class c ranges = true.
Proof. inversion 1; subst; eauto. Qed.

Lemma Matches_Cat_inv r1 r2 s :
  Matches (Cat r1 r2) s ->
  exists s1 s2, s = s1 ++ s2 /\ Matches r1 s1 /\ Matches r2 s2.
Proof. inversion 1; subst; eauto. Qed.

Lemma Matches_Alt_inv r1 r2 s :
  Matches (Alt r1 r2) s -> Matches r1 s \/ Matches r2 s.
Proof. inversion 1; subst; auto. Qed.

Lemma nullable_Matches r : nullable r = true <-> Matches r [].
Proof.
  induction r as [| | ranges | r1 IH1 r2 IH2 | r1 IH1 r2 IH2 | r IH]; simpl.
  - split; [discriminate | intros H; destruct (Matches_Void_inv _ H)].
  - split; [constructor | reflexivity].
  - split; [discriminate |].
    intros H. apply Matches_Class_inv in H as (c & E & _). discriminate.
  - rewrite andb_true_iff, IH1, IH2. split.
    + intros [H1 H2]. apply (MCat _ _ [] [] H1 H2).
    + intros H. apply Matches_Cat_inv in H as (s1 & s2 & E & H1 & H2).
      symmetry in E. apply app_eq_nil in E as [-> ->]. auto.
  - rewrite orb_true_iff, IH1, IH2. split.
    + intros [H | H]; [apply MAltL | apply MAltR]; exact H.
    + apply Matches_Alt_inv.
  - split; [constructor | reflexivity].
Qed.

Lemma cat_Matches r1 r2 s : Matches (cat r1 r2) s <-> Matches (Cat r1 r2) s.
Proof.
  assert (HV1 : forall r, Matches Void s <-> Matches (Cat Void r) s).
  { intros r. split; intros H; [destruct (Matches_Void_inv _ H) |].
    apply Matches_Cat_inv in H as (? & ? & _ & H & _).
    destruct (Matches_Void_inv _ H). }
  assert (HV2 : forall r, Matches Void s <-> Matches (Cat r Void) s).
  { intros r. split; intros H; [destruct (Matches_Void_inv _ H) |].
    apply Matches_Cat_inv in H as (? & ? & _ & _ & H).
    destruct (Matches_Void_inv _ H). }
  assert (HE : forall r, Matches r s <-> Matches (Cat Eps r) s).
  { intros r. split; intros H.
    - apply (MCat Eps r [] s MEps H).
    - apply Matches_Cat_inv in H as (s1 & s2 & -> & H1 & H2).
      apply Matches_Eps_inv in H1 as ->. exact H2. }
  destruct r1, r2; simpl; auto; reflexivity.
Qed.

Lemma alt_Matches r1 r2 s : Matches (alt r1 r2) s <-> Matches (Alt r1 r2) s.
Proof.
  assert (HL : forall r, Matches r s <-> Matches (Alt Void r) s).
  { intros r. split; intros H; [apply MAltR; exact H |].
    apply Matches_Alt_inv in H as [H | H];
      [destruct (Matches_Void_inv _ H) | exact H]. }
  assert (HR : forall r, Matches r s <-> Matches (Alt r Void) s).
  { intros r. split; intros H; [apply MAltL; exact H |].
    apply Matches_Alt_inv in H as [H | H];
      [exact H | destruct (Matches_Void_inv _ H)]. }
  destruct r1, r2; simpl; auto; reflexivity.
Qed.

(** A non-empty word of [r*] starts with a non-empty word of [r]. *)
Lemma Matches_Star_cons r c s :
  Matches (Star r) (c :: s) ->
  exists s1 s2, s = s1 ++ s2 /\ Matches r (c :: s1) /\ Matches (Star r) s2.
Proof.
  intros H. remember (Star r) as r' eqn:Er. remember (c :: s) as w eqn:Ew.
  revert c s Ew.
  induction H as [| | | | | |r0 s1 s2 H1 _ H2 IH2]; try discriminate.
  injection Er as ->. intros c s Ew.
  destruct s1 as [|c1 s1]; simpl in Ew.
  - apply IH2; [reflexivity | exact Ew].
  - injection Ew as -> <-. eauto.
Qed.

Lemma deriv_Matches c r : forall s, Matches (deriv c r) s <-> Matches r (c :: s).
Proof.
  induction r as [| | ranges | r1 IH1 r2 IH2 | r1 IH1 r2 IH2 | r IH];
    intros s; simpl.
  - split; intros H; destruct (Matches_Void_inv _ H).
  - split; intros H; [destruct (Matches_Void_inv _ H) |].
    apply Matches_Eps_inv in H. discriminate.
  - destruct (in_class c ranges) eqn:Hc; split; intros H.
    + apply Matches_Eps_inv in H as ->. constructor. exact Hc.
    + apply Matches_Class_inv in H as (c' & E & _). injection E as -> ->.
      constructor.
    + destruct (Matches_Void_inv _ H).
    + apply Matches_Class_inv in H as (c' & E & Hc'). injection E as -> ->.
      congruence.
  - rewrite alt_Matches. split; intros H.
    + apply Matches_Alt_inv in H as [H | H].
      * apply cat_Matches, Matches_Cat_inv in H as (s1 & s2 & -> & H1 & H2).
        apply IH1 in H1. apply (MCat _ _ (c :: s1) s2 H1 H2).
      * destruct (nullable r1) eqn:Hn; [| destruct (Matches_Void_inv _ H)].
        apply nullable_Matches in Hn. apply IH2 in H.
        apply (MCat _ _ [] (c :: s) Hn H).
    + apply Matches_Cat_inv in H as (s1 & s2 & E & H1 & H2).
      destruct s1 as [|c1 s1]; simpl in E.
      * subst s2. apply MAltR. apply nullable_Matches in H1. rewrite H1.
        apply IH2. exact H2.
      * injection E as <- ->. apply MAltL, cat_Matches.
        apply MCat; [apply IH1; exact H1 | exact H2].
  - rewrite alt_Matches. split; intros H.
    + apply Matches_Alt_inv in H as [H | H];
        [apply MAltL, IH1 | apply MAltR, IH2]; exact H.
    + apply Matches_Alt_inv in H as [H | H];
        [apply MAltL, IH1 | apply MAltR, IH2]; exact H.
  - rewrite cat_Matches. split; intros H.
    + apply Matches_Cat_inv in H as (s1 & s2 & -> & H1 & H2).
      apply IH in H1. apply (MStarApp _ (c :: s1) s2 H1 H2).
    + apply Matches_Star_cons in H as (s1 & s2 & -> & H1 & H2).
      apply MCat; [apply IH; exact H1 | exact H2].
Qed.

Lemma test_Matches s : forall r, test r s = true <-> Matches r s.
Proof.
  induction s as [|c s IH]; intros r; simpl.
  - apply nullable_Matches.
  - rewrite IH. apply deriv_Matches.
Qed.

Lemma test_Void s : test Void s = false.
Proof. induction s; simpl; auto. Qed.

End RegexFacts.

(** ** The four validators exclude one another *)

Section Disjoint.

Lemma in_class_single c d : in_class c [(d, d)] = true -> c = d.
Proof.
  unfold in_class; simpl. rewrite orb_false_r, andb_true_iff.
  rewrite !N.leb_le. lia.
Qed.

Lemma Matches_Lit_inv c s : Matches (Lit c) s -> s = [c].
Proof.
  intros H. apply Matches_Class_inv in H as (d & -> & Hd).
  apply in_class_single in Hd as ->. reflexivity.
Qed.

Lemma Matches_Str_inv t : forall s, Matches (Str t) s -> s = t.
Proof.
  induction t as [|c t IH]; intros s H; simpl in H.
  - apply Matches_Eps_inv in H. exact H.
  - apply Matches_Cat_inv in H as (s1 & s2 & -> & H1 & H2).
    apply Matches_Lit_inv in H1 as ->. apply IH in H2 as ->. reflexivity.
Qed.

Lemma hex_starts s : isValidHexColor s = true -> exists s', s = js "#" ++ s'.
Proof.
  unfold isValidHexColor, pattern_hex. intros H.
  apply test_Matches, Matches_Cat_inv in H as (s1 & s2 & -> & H1 & _).
  apply Matches_Lit_inv in H1 as ->. exists s2. reflexivity.
Qed.

Lemma rgb_pattern_starts s :
  test pattern_rgb s = true -> exists s', s = js "rgb" ++ s'.
Proof.
  unfold pattern_rgb. intros H.
  apply test_Matches, Matches_Cat_inv in H as (s1 & s2 & -> & H1 & _).
  apply Matches_Str_inv in H1 as ->. eauto.
Qed.

Lemma hsl_pattern_starts s :
  test pattern_hsl s = true -> exists s', s = js "hsl" ++ s'.
Proof.
  unfold pattern_hsl. intros H.
  apply test_Matches, Matches_Cat_inv in H as (s1 & s2 & -> & H1 & _).
  apply Matches_Str_inv in H1 as ->. eauto.
Qed.

Lemma rgb_starts s : isValidRgbColor s = true -> exists s', s = js "rgb" ++ s'.
Proof.
  unfold isValidRgbColor. destruct (test pattern_rgb s) eqn:H; simpl.
  - intros _. apply rgb_pattern_starts, H.
  - discriminate.
Qed.

Lemma hsl_starts s : isValidHslColor s = true -> exists s', s = js "hsl" ++ s'.
Proof.
  unfold isValidHslColor. destruct (test pattern_hsl s) eqn:H; simpl.
  - intros _. apply hsl_pattern_starts, H.
  - discriminate.
Qed.

(** A pattern whose derivative along a prefix is empty rejects every string
    with that prefix. *)
Lemma test_prefix_Void r p s :
  fold_left (fun r c => deriv c r) p r = Void -> test r (p ++ s) = false.
Proof.
  revert r. induction p as [|c p IH]; intros r H; simpl in *.
  - rewrite H. apply test_Void.
  - apply IH, H.
Qed.

Lemma rgb_not_hex s : isValidRgbColor s = true -> isValidHexColor s = false.
Proof.
  intros H. apply rgb_starts in H as (s' & ->).
  apply (test_prefix_Void pattern_hex (js "r")). reflexivity.
Qed.

Lemma hsl_not_hex s : isValidHslColor s = true -> isValidHexColor s = false.
Proof.
  intros H. apply hsl_starts in H as (s' & ->).
  apply (test_prefix_Void pattern_hex (js "h")). reflexivity.
Qed.

Lemma hsl_not_rgb s : isValidHslColor s = true -> isValidRgbColor s = false.
Proof.
  intros H. apply hsl_starts in H as (s' & ->). unfold isValidRgbColor.
  rewrite (test_prefix_Void pattern_rgb (js "hsl")); reflexivity.
Qed.

Lemma named_not_hex s : isValidNamedColor s = true -> isValidHexColor s = false.
Proof.
  intros H. destruct (isValidHexColor s) eqn:Hh; [| reflexivity].
  apply hex_starts in Hh as (s' & ->). unfold isValidNamedColor in H.
  rewrite (test_prefix_Void pattern_named (js "#")) in H;
    [discriminate | vm_compute; reflexivity].
Qed.

Lemma named_not_rgb s : isValidNamedColor s = true -> isValidRgbColor s = false.
Proof.
  intros H. destruct (isValidRgbColor s) eqn:Hr; [| reflexivity].
  apply rgb_starts in Hr as (s' & ->). unfold isValidNamedColor in H.
  rewrite (test_prefix_Void pattern_named (js "rgb")) in H;
    [discriminate | vm_compute; reflexivity].
Qed.

Lemma named_not_hsl s : isValidNamedColor s = true -> isValidHslColor s = false.
Proof.
  intros H. destruct (isValidHslColor s) eqn:Hr; [| reflexivity].
  apply hsl_starts in Hr as (s' & ->). unfold isValidNamedColor in H.
  rewrite (test_prefix_Void pattern_named (js "hsl")) in H;
    [discriminate | vm_compute; reflexivity].
Qed.

End Disjoint.

(** C5. For every string, getColorFormat answers "hex" exactly when
    isValidHexColor holds, "rgb" exactly when isValidRgbColor holds, "hsl"
    exactly when isValidHslColor holds, "named" exactly when
    isValidNamedColor holds, and "unknown" exactly when none of them does. *)
Theorem getColorFormat_iff (c : jsstring) :
  (getColorFormat c = hex <-> isValidHexColor c = true) /\
  (getColorFormat c = rgb <-> isValidRgbColor c = true) /\
  (getColorFormat c = hsl <-> isValidHslColor c = true) /\
  (getColorFormat c = named <-> isValidNamedColor c = true) /\
  (getColorFormat c = unknown <->
     isValidHexColor c = false /\ isValidRgbColor c = false /\
     isValidHslColor c = false /\ isValidNamedColor c = false).
Proof.
  pose proof (rgb_not_hex c) as Hrh. pose proof (hsl_not_hex c) as Hsh.
  pose proof (hsl_not_rgb c) as Hsr. pose proof (named_not_hex c) as Hnh.
  pose proof (named_not_rgb c) as Hnr. pose proof (named_not_hsl c) as Hns.
  unfold getColorFormat.
  destruct (isValidHexColor c), (isValidRgbColor c), (isValidHslColor c),
    (isValidNamedColor c);
    repeat split; intros; try discriminate; try reflexivity;
    try (specialize (Hrh eq_refl)); try (specialize (Hsh eq_refl));
    try (specialize (Hsr eq_refl)); try (specialize (Hnh eq_refl));
    try (specialize (Hnr eq_refl)); try (specialize (Hns eq_refl));
    try discriminate; intuition discriminate.
Qed.

(** ** What isValidRgbColor does on the strings of its pattern *)

Section RgbFacts.

Lemma Matches_Lit c : Matches (Lit c) [c].
Proof.
  constructor. unfold in_class; simpl. rewrite N.leb_refl. reflexivity.
Qed.

Lemma Matches_Str t : Matches (Str t) t.
Proof.
  induction t as [|c t IH]; simpl; [constructor |].
  apply (MCat _ _ [c] t); [apply Matches_Lit | exact IH].
Qed.

Lemma Matches_Opt_nil r : Matches (Opt r) [].
Proof. apply MAltR. constructor. Qed.

Lemma Matches_Opt_flag c (b : bool) :
  Matches (Opt (Lit c)) (if b then [c] else []).
Proof.
  destruct b; [apply MAltL, Matches_Lit | apply Matches_Opt_nil].
Qed.

Lemma Matches_Star_Class ranges w :
  forallb (fun c => in_class c ranges) w = true ->
  Matches (Star (Class ranges)) w.
Proof.
  induction w as [|c w IH]; simpl; [constructor |].
  rewrite andb_true_iff. intros [Hc Hw].
  apply (MStarApp _ [c] w); [constructor; exact Hc | apply IH, Hw].
Qed.

Lemma isDigit_class c : in_class c [(48, 57)] = isDigit c.
Proof. unfold in_class, isDigit; simpl. apply orb_false_r. Qed.

Lemma Matches_digits_1_3 ds :
  forallb isDigit ds = true -> (1 <= length ds <= 3)%nat ->
  Matches (Between 1 3 digit) ds.
Proof.
  intros Hd Hl. unfold Between, digit; simpl.
  destruct ds as [|a [|b [|c [|e ds]]]]; simpl in Hl; try lia;
    simpl in Hd; rewrite ?andb_true_iff in Hd.
  - destruct Hd as [Ha _].
    apply (MCat _ _ [a] []).
    + apply (MCat _ _ [a] []); constructor. rewrite isDigit_class. exact Ha.
    + apply Matches_Opt_nil.
  - destruct Hd as (Ha & Hb & _).
    apply (MCat _ _ [a] [b]).
    + apply (MCat _ _ [a] []); constructor. rewrite isDigit_class. exact Ha.
    + apply MAltL. apply (MCat _ _ [b] []).
      * constructor. rewrite isDigit_class. exact Hb.
      * apply Matches_Opt_nil.
  - destruct Hd as (Ha & Hb & Hc & _).
    apply (MCat _ _ [a] [b; c]).
    + apply (MCat _ _ [a] []); constructor. rewrite isDigit_class. exact Ha.
    + apply MAltL. apply (MCat _ _ [b] [c]).
      * constructor. rewrite isDigit_class. exact Hb.
      * apply MAltL. apply (MCat _ _ [c] []).
        -- constructor. rewrite isDigit_class. exact Hc.
        -- constructor.
Qed.

Lemma wf_channel_spec c :
  wf_channel c = true ->
  forallb isDigit (ch_digits c) = true /\ (1 <= length (ch_digits c) <= 3)%nat.
Proof.
  unfold wf_channel. rewrite !andb_true_iff, !Nat.leb_le. tauto.
Qed.

Lemma Matches_channel c :
  wf_channel c = true -> Matches rgb_channel (render_channel c).
Proof.
  intros H. apply wf_channel_spec in H as [Hd Hl].
  unfold rgb_channel, render_channel. apply MCat.
  - apply Matches_digits_1_3; assumption.
  - apply (Matches_Opt_flag 37).
Qed.

Lemma Matches_ws w : forallb isSpace w = true -> Matches ws w.
Proof. apply Matches_Star_Class. Qed.

Lemma Matches_alpha a :
  wf_alpha a = true -> Matches alpha_text (render_alpha a).
Proof.
  unfold wf_alpha, alpha_text, render_alpha. rewrite andb_true_iff.
  intros [Hl Hd]. apply MCat; [| apply MCat].
  - destruct (a_lead a) as [d|]; [| apply Matches_Opt_nil].
    apply MAltL. constructor. unfold in_class; simpl.
    rewrite orb_false_r, andb_true_iff, !N.leb_le.
    rewrite orb_true_iff, !N.eqb_eq in Hl. lia.
  - apply (Matches_Opt_flag 46).
  - apply Matches_Star_Class. clear Hl.
    induction (a_digits a) as [|c ds IH]; cbn [forallb] in *; [reflexivity |].
    rewrite andb_true_iff in *. rewrite isDigit_class. tauto.
Qed.

Lemma Matches_alpha_group g :
  wf_alpha_group g = true -> Matches alpha_part (render_alpha_group g).
Proof.
  unfold alpha_part. destruct g as [[[wa a] wb]|]; simpl;
    [| intros _; apply Matches_Opt_nil].
  rewrite !andb_true_iff. intros [[Ha Hal] Hb].
  apply MAltL. apply (MCat _ _ [44]); [apply Matches_Lit |].
  apply MCat; [apply Matches_ws, Ha |].
  apply MCat; [apply Matches_alpha, Hal | apply Matches_ws, Hb].
Qed.

Lemma rgb_pattern_render t : wf t = true -> test pattern_rgb (render t) = true.
Proof.
  unfold wf. rewrite !andb_true_iff.
  intros [[[[[[[[[H1 Hc1] H2] H3] Hc2] H4] H5] Hc3] H6] Ha].
  apply test_Matches. unfold pattern_rgb, render.
  apply MCat; [apply Matches_Str |].
  apply MCat; [apply (Matches_Opt_flag 97) |].
  apply (MCat _ _ [40]); [apply Matches_Lit |].
  apply MCat; [apply Matches_ws, H1 |].
  apply MCat; [apply Matches_channel, Hc1 |].
  apply MCat; [apply Matches_ws, H2 |].
  apply (MCat _ _ [44]); [apply Matches_Lit |].
  apply MCat; [apply Matches_ws, H3 |].
  apply MCat; [apply Matches_channel, Hc2 |].
  apply MCat; [apply Matches_ws, H4 |].
  apply (MCat _ _ [44]); [apply Matches_Lit |].
  apply MCat; [apply Matches_ws, H5 |].
  apply MCat; [apply Matches_channel, Hc3 |].
  apply MCat; [apply Matches_ws, H6 |].
  apply MCat; [apply Matches_alpha_group, Ha | apply Matches_Lit].
Qed.

End RgbFacts.

Section DigitRuns.

Lemma digitRuns_skip pre s :
  nondigits pre = true -> digitRuns (pre ++ s) = digitRuns s.
Proof.
  unfold nondigits. induction pre as [|c pre IH]; simpl; [reflexivity |].
  rewrite andb_true_iff, negb_true_iff. intros [-> H]. apply IH, H.
Qed.

Lemma digitRuns_run ds s :
  ds <> [] -> forallb isDigit ds = true -> starts_nondigit s = true ->
  digitRuns (ds ++ s) = ds :: digitRuns s.
Proof.
  intros Hne Hd Hs. induction ds as [|c ds IH]; [congruence |].
  cbn [forallb] in Hd. apply andb_true_iff in Hd as [Hc Hd].
  destruct ds as [|c2 ds].
  - cbn [app digitRuns]. rewrite Hc. destruct s as [|d s]; [reflexivity |].
    simpl in Hs. apply negb_true_iff in Hs. rewrite Hs. reflexivity.
  - assert (Hc2 : isDigit c2 = true).
    { cbn [forallb] in Hd. apply andb_true_iff in Hd as [H _]. exact H. }
    change ((c :: c2 :: ds) ++ s) with (c :: (c2 :: ds) ++ s).
    cbn [digitRuns]. rewrite Hc.
    change ((c2 :: ds) ++ s) with (c2 :: ds ++ s) at 1. cbv iota.
    rewrite Hc2. rewrite IH; [reflexivity | discriminate | exact Hd].
Qed.

Lemma starts_nondigit_app pre s :
  nondigits pre = true -> starts_nondigit s = true ->
  starts_nondigit (pre ++ s) = true.
Proof.
  destruct pre as [|c pre]; simpl; [auto |].
  rewrite andb_true_iff. tauto.
Qed.

Lemma space_not_digit c : isSpace c = true -> negb (isDigit c) = true.
Proof.
  unfold isSpace, in_class, isDigit, whitespace_ranges; simpl.
  rewrite negb_true_iff, andb_false_iff, !orb_true_iff, !andb_true_iff.
  rewrite !N.leb_le, !N.leb_gt. lia.
Qed.

Lemma spaces_nondigits w : forallb isSpace w = true -> nondigits w = true.
Proof.
  unfold nondigits. induction w as [|c w IH]; simpl; [reflexivity |].
  rewrite !andb_true_iff. intros [Hc Hw]. split; [| apply IH, Hw].
  apply space_not_digit, Hc.
Qed.

Lemma percent_nondigits (b : bool) :
  nondigits (if b then js "%" else []) = true.
Proof. destruct b; reflexivity. Qed.

Lemma channel_digits_nonempty c : wf_channel c = true -> ch_digits c <> [].
Proof.
  intros H. apply wf_channel_spec in H as [_ Hl].
  destruct (ch_digits c); simpl in Hl; [lia | discriminate].
Qed.

(** One channel and what follows it up to the next piece. *)
Lemma digitRuns_channel c w rest :
  wf_channel c = true -> forallb isSpace w = true ->
  starts_nondigit rest = true ->
  digitRuns (render_channel c ++ w ++ rest) = ch_digits c :: digitRuns rest.
Proof.
  intros Hc Hw Hr. unfold render_channel. rewrite <- app_assoc.
  rewrite digitRuns_run.
  - rewrite digitRuns_skip by apply percent_nondigits.
    rewrite digitRuns_skip by (apply spaces_nondigits, Hw). reflexivity.
  - apply channel_digits_nonempty, Hc.
  - apply wf_channel_spec in Hc as [Hd _]. exact Hd.
  - apply starts_nondigit_app; [apply percent_nondigits |].
    apply starts_nondigit_app; [apply spaces_nondigits, Hw | exact Hr].
Qed.

Lemma digitRuns_render t :
  wf t = true ->
  exists more,
    digitRuns (render t)
    = ch_digits (rt_c1 t) :: ch_digits (rt_c2 t) :: ch_digits (rt_c3 t)
      :: more.
Proof.
  unfold wf. rewrite !andb_true_iff.
  intros [[[[[[[[[H1 Hc1] H2] H3] Hc2] H4] H5] Hc3] H6] Ha].
  unfold render.
  rewrite (digitRuns_skip (js "rgb")) by reflexivity.
  rewrite digitRuns_skip by (destruct (rt_a t); reflexivity).
  rewrite (digitRuns_skip (js "(")) by reflexivity.
  rewrite digitRuns_skip by (apply spaces_nondigits, H1).
  rewrite digitRuns_channel; [| exact Hc1 | exact H2 | reflexivity].
  rewrite (digitRuns_skip (js ",")) by reflexivity.
  rewrite digitRuns_skip by (apply spaces_nondigits, H3).
  rewrite digitRuns_channel; [| exact Hc2 | exact H4 | reflexivity].
  rewrite (digitRuns_skip (js ",")) by reflexivity.
  rewrite digitRuns_skip by (apply spaces_nondigits, H5).
  rewrite digitRuns_channel; [eauto | exact Hc3 | exact H6 |].
  destruct (rt_alpha t) as [[[wa a] wb]|]; reflexivity.
Qed.

(** On a string of the pattern, isValidRgbColor is the numeric re-check of
    the three channels' digits. *)
Lemma isValidRgbColor_render t :
  wf t = true -> isValidRgbColor (render t) = channels_in_range t.
Proof.
  intros Hwf. unfold isValidRgbColor, match_digits.
  rewrite (rgb_pattern_render t Hwf).
  destruct (digitRuns_render t Hwf) as (more & ->).
  cbn [negb length map Nat.ltb Nat.leb]. unfold channels_in_range.
  rewrite !(proj2 (N.leb_le 0 _) (N.le_0_l _)).
  cbn [andb]. rewrite !andb_true_r. reflexivity.
Qed.

End DigitRuns.

(** Conversely, the pattern accepts nothing but such strings. *)
Section RgbShape.

Lemma Matches_Opt_inv r s : Matches (Opt r) s -> Matches r s \/ s = [].
Proof.
  intros H. apply Matches_Alt_inv in H as [H | H]; [left; exact H |].
  right. apply Matches_Eps_inv, H.
Qed.

Lemma Matches_Opt_flag_inv c s :
  Matches (Opt (Lit c)) s -> exists b : bool, s = if b then [c] else [].
Proof.
  intros H. apply Matches_Opt_inv in H as [H | ->].
  - apply Matches_Lit_inv in H as ->. exists true. reflexivity.
  - exists false. reflexivity.
Qed.

Lemma Matches_Star_Class_inv ranges w :
  Matches (Star (Class ranges)) w ->
  forallb (fun c => in_class c ranges) w = true.
Proof.
  induction w as [|c w IH]; intros H; [reflexivity |].
  apply Matches_Star_cons in H as (s1 & s2 & -> & H1 & H2).
  apply Matches_Class_inv in H1 as (d & E & Hd). injection E as -> ->.
  cbn [forallb app] in *. rewrite Hd. apply IH, H2.
Qed.

Lemma Matches_digit_inv s :
  Matches digit s -> exists c, s = [c] /\ isDigit c = true.
Proof.
  intros H. apply Matches_Class_inv in H as (c & -> & Hc).
  rewrite isDigit_class in Hc. eauto.
Qed.

Lemma Matches_digits_1_3_inv ds :
  Matches (Between 1 3 digit) ds ->
  forallb isDigit ds = true /\ (1 <= length ds <= 3)%nat.
Proof.
  unfold Between; simpl. intros H.
  apply Matches_Cat_inv in H as (s1 & s2 & -> & H1 & H2).
  apply Matches_Cat_inv in H1 as (a & e & -> & Ha & He).
  apply Matches_Eps_inv in He as ->.
  apply Matches_digit_inv in Ha as (ca & -> & Hca).
  apply Matches_Opt_inv in H2 as [H2 | ->];
    [| simpl; rewrite Hca; split; [reflexivity | lia]].
  apply Matches_Cat_inv in H2 as (b & s3 & -> & Hb & H3).
  apply Matches_digit_inv in Hb as (cb & -> & Hcb).
  apply Matches_Opt_inv in H3 as [H3 | ->];
    [| simpl; rewrite Hca, Hcb; split; [reflexivity | lia]].
  apply Matches_Cat_inv in H3 as (c & s4 & -> & Hc & H4).
  apply Matches_digit_inv in Hc as (cc & -> & Hcc).
  apply Matches_Eps_inv in H4 as ->.
  simpl. rewrite Hca, Hcb, Hcc. split; [reflexivity | lia].
Qed.

Lemma Matches_channel_inv s :
  Matches rgb_channel s ->
  exists c, wf_channel c = true /\ s = render_channel c.
Proof.
  unfold rgb_channel. intros H.
  apply Matches_Cat_inv in H as (ds & p & -> & Hd & Hp).
  apply Matches_digits_1_3_inv in Hd as [Hd Hl].
  apply Matches_Opt_flag_inv in Hp as (b & ->).
  exists {| ch_digits := ds; ch_percent := b |}. split; [| reflexivity].
  unfold wf_channel; cbn [ch_digits]. rewrite Hd.
  rewrite !andb_true_iff, !Nat.leb_le. tauto.
Qed.

Lemma Matches_ws_inv w : Matches ws w -> forallb isSpace w = true.
Proof. apply Matches_Star_Class_inv. Qed.

Lemma Matches_alpha_inv s :
  Matches alpha_text s -> exists a, wf_alpha a = true /\ s = render_alpha a.
Proof.
  unfold alpha_text. intros H.
  apply Matches_Cat_inv in H as (l & s1 & -> & Hl & H).
  apply Matches_Cat_inv in H as (p & ds & -> & Hp & Hd).
  apply Matches_Opt_flag_inv in Hp as (b & ->).
  apply Matches_Star_Class_inv in Hd.
  assert (Hd' : forallb isDigit ds = true).
  { clear -Hd. induction ds as [|c ds IH]; cbn [forallb] in *; [reflexivity |].
    rewrite andb_true_iff in *. rewrite <- isDigit_class. tauto. }
  apply Matches_Opt_inv in Hl as [Hl | ->].
  - apply Matches_Class_inv in Hl as (d & -> & Hc).
    exists {| a_lead := Some d; a_dot := b; a_digits := ds |}.
    split; [| reflexivity]. unfold wf_alpha; simpl. rewrite Hd'.
    rewrite andb_true_r. unfold in_class in Hc; simpl in Hc.
    rewrite orb_false_r, andb_true_iff, !N.leb_le in Hc.
    rewrite orb_true_iff, !N.eqb_eq. lia.
  - exists {| a_lead := None; a_dot := b; a_digits := ds |}.
    split; [| reflexivity]. unfold wf_alpha; simpl. exact Hd'.
Qed.

Lemma Matches_alpha_group_inv s :
  Matches alpha_part s ->
  exists g, wf_alpha_group g = true /\ s = render_alpha_group g.
Proof.
  unfold alpha_part. intros H. apply Matches_Opt_inv in H as [H | ->];
    [| exists None; split; reflexivity].
  apply Matches_Cat_inv in H as (k & s1 & -> & Hk & H).
  apply Matches_Lit_inv in Hk as ->.
  apply Matches_Cat_inv in H as (wa & s2 & -> & Hwa & H).
  apply Matches_Cat_inv in H as (a & wb & -> & Ha & Hwb).
  apply Matches_ws_inv in Hwa. apply Matches_ws_inv in Hwb.
  apply Matches_alpha_inv in Ha as (al & Hal & ->).
  exists (Some (wa, al, wb)). split; [| reflexivity].
  simpl. rewrite Hwa, Hal, Hwb. reflexivity.
Qed.

Lemma rgb_pattern_shape s :
  test pattern_rgb s = true -> exists t, wf t = true /\ s = render t.
Proof.
  unfold pattern_rgb. intros H. apply test_Matches in H.
  apply Matches_Cat_inv in H as (p & s1 & -> & Hp & H).
  apply Matches_Str_inv in Hp as ->.
  apply Matches_Cat_inv in H as (a & s2 & -> & Ha & H).
  apply Matches_Opt_flag_inv in Ha as (ba & ->).
  apply Matches_Cat_inv in H as (k & s3 & -> & Hk & H).
  apply Matches_Lit_inv in Hk as ->.
  apply Matches_Cat_inv in H as (w1 & s4 & -> & H1 & H).
  apply Matches_Cat_inv in H as (x1 & s5 & -> & Hc1 & H).
  apply Matches_Cat_inv in H as (w2 & s6 & -> & H2 & H).
  apply Matches_Cat_inv in H as (k1 & s7 & -> & Hk1 & H).
  apply Matches_Lit_inv in Hk1 as ->.
  apply Matches_Cat_inv in H as (w3 & s8 & -> & H3 & H).
  apply Matches_Cat_inv in H as (x2 & s9 & -> & Hc2 & H).
  apply Matches_Cat_inv in H as (w4 & s10 & -> & H4 & H).
  apply Matches_Cat_inv in H as (k2 & s11 & -> & Hk2 & H).
  apply Matches_Lit_inv in Hk2 as ->.
  apply Matches_Cat_inv in H as (w5 & s12 & -> & H5 & H).
  apply Matches_Cat_inv in H as (x3 & s13 & -> & Hc3 & H).
  apply Matches_Cat_inv in H as (w6 & s14 & -> & H6 & H).
  apply Matches_Cat_inv in H as (g & k3 & -> & Hg & Hk3).
  apply Matches_Lit_inv in Hk3 as ->.
  apply Matches_ws_inv in H1, H2, H3, H4, H5, H6.
  apply Matches_channel_inv in Hc1 as (c1 & Hc1 & ->).
  apply Matches_channel_inv in Hc2 as (c2 & Hc2 & ->).
  apply Matches_channel_inv in Hc3 as (c3 & Hc3 & ->).
  apply Matches_alpha_group_inv in Hg as (ag & Hg & ->).
  exists {| rt_a := ba; rt_w1 := w1; rt_c1 := c1; rt_w2 := w2; rt_w3 := w3;
            rt_c2 := c2; rt_w4 := w4; rt_w5 := w5; rt_c3 := c3; rt_w6 := w6;
            rt_alpha := ag |}.
  split; [| reflexivity]. unfold wf; simpl.
  rewrite H1, H2, H3, H4, H5, H6, Hc1, Hc2, Hc3, Hg. reflexivity.
Qed.

Lemma isValidRgbColor_shape s :
  isValidRgbColor s = true <->
  exists t, wf t = true /\ s = render t /\ channels_in_range t = true.
Proof.
  split.
  - intros H. assert (Hp : test pattern_rgb s = true).
    { unfold isValidRgbColor in H.
      destruct (test pattern_rgb s); [reflexivity | discriminate]. }
    apply rgb_pattern_shape in Hp as (t & Hwf & ->).
    rewrite (isValidRgbColor_render t Hwf) in H. eauto.
  - intros (t & Hwf & -> & Hr). rewrite isValidRgbColor_render; assumption.
Qed.

End RgbShape.

(** ** isValidRgbColor: the channels and the alpha text *)

Example rgb_256_rejected : isValidRgbColor (js "rgb(256,0,0)") = false.
Proof. reflexivity. Qed.

Example rgb_255_accepted : isValidRgbColor (js "rgb(255,0,0)") = true.
Proof. reflexivity. Qed.

Example rgb_percent_150_accepted :
  isValidRgbColor (js "rgb(150%, 0%, 0%)") = true.
Proof. reflexivity. Qed.

(** C3, as stated, fails: "rgb(300%, 0%, 0%)" is a string of the pattern
    whose three channels carry a percent sign, and the numeric re-check
    rejects it. *)
Lemma rgb_percent_300_rejected :
  test pattern_rgb (js "rgb(300%, 0%, 0%)") = true /\
  isValidRgbColor (js "rgb(300%, 0%, 0%)") = false.
Proof. split; reflexivity. Qed.

(** C3, amended. On every string of the rgb pattern the verdict of
    isValidRgbColor is the re-check "at most 255" on the digits of each of
    the three channels, with or without a percent sign: the sign is never
    looked at, so a percent channel passes up to 255% (and not only up to
    100%) and fails above. *)
Theorem isValidRgbColor_rechecks_percent (t : rgbText) :
  wf t = true ->
  isValidRgbColor (render t)
  = (Number (ch_digits (rt_c1 t)) <=? 255)
    && (Number (ch_digits (rt_c2 t)) <=? 255)
    && (Number (ch_digits (rt_c3 t)) <=? 255).
Proof. apply isValidRgbColor_render. Qed.

(** The amended C3 at "rgb(150%, 0%, 0%)". *)
Lemma isValidRgbColor_rechecks_percent_witness :
  wf rgb_150_percent = true /\
  render rgb_150_percent = js "rgb(150%, 0%, 0%)" /\
  isValidRgbColor (js "rgb(150%, 0%, 0%)") = true.
Proof.
  split; [reflexivity |]. split; [reflexivity |].
  change (js "rgb(150%, 0%, 0%)") with (render rgb_150_percent).
  rewrite (isValidRgbColor_rechecks_percent rgb_150_percent); reflexivity.
Defined.

Example rgba_alpha_9_accepted :
  isValidRgbColor (js "rgba(0, 0, 0, 9)") = true.
Proof. reflexivity. Qed.

Example rgba_alpha_1_5_accepted :
  isValidRgbColor (js "rgba(0, 0, 0, 1.5)") = true.
Proof. reflexivity. Qed.

(** C10, as stated, fails: the three channels of "rgba(0, 0, 0, 2.5)" are
    0, 0 and 0, its alpha 2.5 lies outside [0,1], and the string is
    rejected: the alpha text is not of the shape the pattern asks for. *)
Lemma rgba_alpha_2_5_rejected :
  map Number (take 3 (digitRuns (js "rgba(0, 0, 0, 2.5)"))) = [0; 0; 0] /\
  test pattern_rgb (js "rgba(0, 0, 0, 2.5)") = false /\
  isValidRgbColor (js "rgba(0, 0, 0, 2.5)") = false.
Proof. repeat split; reflexivity. Qed.

(** C10, amended. The alpha of an rgb()/rgba() string is constrained by the
    shape of its text only (an optional 0 or 1, an optional dot, any
    digits) and never by its value: when the three channels pass the
    re-check, every alpha group of that shape is accepted. *)
Theorem isValidRgbColor_alpha_shape_only (t : rgbText)
    (g : option (jsstring * alpha * jsstring)) :
  wf t = true -> channels_in_range t = true -> wf_alpha_group g = true ->
  isValidRgbColor (render (with_alpha g t)) = true.
Proof.
  intros Hwf Hr Hg. rewrite isValidRgbColor_render; [exact Hr |].
  unfold wf in *. cbn [with_alpha rt_w1 rt_c1 rt_w2 rt_w3 rt_c2 rt_w4 rt_w5
    rt_c3 rt_w6 rt_alpha]. rewrite Hg, andb_true_r.
  apply andb_true_iff in Hwf as [Hwf _]. exact Hwf.
Qed.

(** The amended C10 at "rgba(0, 0, 0, 9)". *)
Lemma isValidRgbColor_alpha_shape_only_witness :
  wf rgb_black = true /\ channels_in_range rgb_black = true /\
  wf_alpha_group alpha_9 = true /\
  render (with_alpha alpha_9 rgb_black) = js "rgba(0, 0, 0, 9)" /\
  isValidRgbColor (js "rgba(0, 0, 0, 9)") = true.
Proof.
  split; [reflexivity |]. split; [reflexivity |]. split; [reflexivity |].
  split; [reflexivity |].
  change (js "rgba(0, 0, 0, 9)") with (render (with_alpha alpha_9 rgb_black)).
  apply (isValidRgbColor_alpha_shape_only rgb_black alpha_9); reflexivity.
Defined.

(** ** The resolvers *)

Ltac unfold_M :=
  unfold mbind, M_bind, mret, M_ret, deref, throw, typographyCache_has,
    typographyCache_get, typographyCache_set, colorCache_has, colorCache_get,
    colorCache_set, notProduction, console_warn.

Section ResolverFacts.

(** *** Reading a typography table *)







(** getTextStyle as one case analysis: the guard, then hit or miss. *)
Lemma getTextStyle_eq variant tokens w :
  getTextStyle variant tokens w =
  match lookupTokens w tokens ≫= typography with
  | None => (Throw (Error typographyError), w)
  | Some typo =>
      let key := typographyCacheKey variant typo in
      match typographyCache w !! key with
      | Some v => (Return v, w)
      | None =>
          (Return (getStyle variant typo),
           snd (typographyCache_set key (getStyle variant typo) w))
      end
  end.
Proof.
  unfold getTextStyle, lookupTokens. unfold_M.
  destruct tokens as [l|]; simpl; [| reflexivity].
  destruct (store w !! l) as [t|]; simpl; [| reflexivity].
  destruct (typography t) as [typo|]; simpl; [| reflexivity].
  destruct (typographyCache w !! typographyCacheKey variant typo) as [v|]
    eqn:E.
  - rewrite bool_decide_eq_true_2 by eauto. rewrite E. reflexivity.
  - rewrite bool_decide_eq_false_2 by (intros [? ?]; discriminate).
    reflexivity.
Qed.

Lemma isColorVariant_case c :
  isColorVariant c = true -> exists field, switchCase c colorCases = Some field.
Proof.
  unfold isColorVariant, COLOR_VARIANT_SET. intros H.
  apply bool_decide_eq_true in H. apply elem_of_list_to_set in H.
  cbn [map] in H.
  repeat (apply elem_of_cons in H as [-> | H]; [eexists; vm_compute; reflexivity |]).
  apply elem_of_nil in H. destruct H.
Qed.

(** The mapper returns the field of the table the colour stands for; on a
    colour of COLOR_VARIANT_SET it has no effect. *)
Lemma getColor_variant c cols w :
  isColorVariant c = true ->
  getColor c cols w = (Return (resolveColor c cols), w).
Proof.
  intros H. apply isColorVariant_case in H as (field & H).
  unfold getColor, resolveColor, colorField. rewrite H. reflexivity.
Qed.

Lemma getTextColor_eq color tokens w :
  getTextColor color tokens w =
  match lookupTokens w tokens ≫= colors with
  | None => (Throw (Error colorError), w)
  | Some cols =>
      match color with
      | None | Some [] => (Return (cols !! js "textPrimary"), w)
      | Some c =>
          if isColorVariant c then
            let key := colorCacheKey c cols in
            match colorCache w !! key with
            | Some v => (Return v, w)
            | None =>
                (Return (resolveColor c cols),
                 snd (colorCache_set key (resolveColor c cols) w))
            end
          else (Return (Some c), w)
      end
  end.
Proof.
  unfold getTextColor, lookupTokens. unfold_M.
  destruct tokens as [l|]; simpl; [| reflexivity].
  destruct (store w !! l) as [t|]; simpl; [| reflexivity].
  destruct (colors t) as [cols|]; simpl; [| reflexivity].
  destruct color as [[|u c]|]; try reflexivity.
  destruct (isColorVariant (u :: c)) eqn:Hv; [| reflexivity].
  cbn [negb].
  destruct (colorCache w !! colorCacheKey (u :: c) cols) as [v|] eqn:E.
  - rewrite bool_decide_eq_true_2 by eauto. rewrite E. reflexivity.
  - rewrite bool_decide_eq_false_2 by (intros [? ?]; discriminate).
    rewrite (getColor_variant _ _ _ Hv). reflexivity.
Qed.


Lemma lookupTokens_store w w' tokens :
  store w' = store w -> lookupTokens w' tokens = lookupTokens w tokens.
Proof. unfold lookupTokens. intros ->. reflexivity. Qed.

Lemma getTextStyle_store variant tokens w :
  store (snd (getTextStyle variant tokens w)) = store w.
Proof.
  rewrite getTextStyle_eq.
  destruct (lookupTokens w tokens ≫= typography) as [typo|]; [| reflexivity].
  cbv zeta.
  destruct (typographyCache w !! typographyCacheKey variant typo);
    reflexivity.
Qed.

Lemma getTextColor_store color tokens w :
  store (snd (getTextColor color tokens w)) = store w.
Proof.
  rewrite getTextColor_eq.
  destruct (lookupTokens w tokens ≫= colors) as [cols|]; [| reflexivity].
  destruct color as [[|u c]|]; try reflexivity.
  destruct (isColorVariant (u :: c)); [| reflexivity]. cbv zeta.
  destruct (colorCache w !! colorCacheKey (u :: c) cols); reflexivity.
Qed.

(** Under one table, distinct names have distinct keys. *)
Lemma typographyCacheKey_inj typo v1 v2 :
  typographyCacheKey v1 typo = typographyCacheKey v2 typo -> v1 = v2.
Proof. unfold typographyCacheKey. apply app_inv_tail. Qed.

Lemma colorCacheKey_inj cols c1 c2 :
  colorCacheKey c1 cols = colorCacheKey c2 cols -> c1 = c2.
Proof. unfold colorCacheKey. apply app_inv_tail. Qed.

(** The cache agrees with every table once cleared, and keeps agreeing with
    a table as long as the calls are made on that table. *)
Lemma typographyCacheFresh_clear typo w :
  typographyCacheFresh typo (snd (clearTypographyCache w)).
Proof. intros variant v. simpl. rewrite lookup_empty. discriminate. Qed.

Lemma typographyCacheFresh_getTextStyle typo variant tokens w :
  lookupTokens w tokens ≫= typography = Some typo ->
  typographyCacheFresh typo w ->
  typographyCacheFresh typo (snd (getTextStyle variant tokens w)).
Proof.
  intros Ht Hf. rewrite getTextStyle_eq, Ht. cbv zeta.
  destruct (typographyCache w !! typographyCacheKey variant typo) eqn:E;
    [exact Hf |].
  intros variant' v. simpl.
  destruct (decide (typographyCacheKey variant typo
                    = typographyCacheKey variant' typo)) as [Ek | Ek].
  - rewrite <- Ek, lookup_insert_eq. intros [= <-].
    apply typographyCacheKey_inj in Ek as ->. reflexivity.
  - rewrite lookup_insert_ne by exact Ek. apply Hf.
Qed.

Lemma colorCacheFresh_clear cols w :
  colorCacheFresh cols (snd (clearColorCache w)).
Proof. intros color v. simpl. rewrite lookup_empty. discriminate. Qed.

Lemma colorCacheFresh_getTextColor cols color tokens w :
  lookupTokens w tokens ≫= colors = Some cols ->
  colorCacheFresh cols w ->
  colorCacheFresh cols (snd (getTextColor color tokens w)).
Proof.
  intros Ht Hf. rewrite getTextColor_eq, Ht.
  destruct color as [[|u c]|]; try exact Hf.
  destruct (isColorVariant (u :: c)); [| exact Hf]. cbv zeta.
  destruct (colorCache w !! colorCacheKey (u :: c) cols) eqn:E; [exact Hf |].
  intros color' v. simpl.
  destruct (decide (colorCacheKey (u :: c) cols = colorCacheKey color' cols))
    as [Ek | Ek].
  - rewrite <- Ek, lookup_insert_eq. intros [= <-].
    apply colorCacheKey_inj in Ek as <-. reflexivity.
  - rewrite lookup_insert_ne by exact Ek. apply Hf.
Qed.

(** Two tables with the same number of entries and the same font size of
    bodyLarge share their keys: after a call on the first, the same call on
    the second answers what the first call answered. *)
Lemma getTextStyle_same_signals variant tk1 tk2 typo1 typo2 w :
  lookupTokens w tk1 ≫= typography = Some typo1 ->
  lookupTokens w tk2 ≫= typography = Some typo2 ->
  size typo1 = size typo2 ->
  bodyLargeFontSize typo1 = bodyLargeFontSize typo2 ->
  fst (getTextStyle variant tk2 (snd (getTextStyle variant tk1 w)))
  = fst (getTextStyle variant tk1 w).
Proof.
  intros H1 H2 Hs Hb.
  assert (Ek : typographyCacheKey variant typo2
               = typographyCacheKey variant typo1).
  { unfold typographyCacheKey. rewrite Hs, Hb. reflexivity. }
  rewrite (getTextStyle_eq variant tk2).
  rewrite (lookupTokens_store _ _ _ (getTextStyle_store variant tk1 w)), H2.
  cbv zeta. rewrite Ek, getTextStyle_eq, H1. cbv zeta.
  destruct (typographyCache w !! typographyCacheKey variant typo1) eqn:E.
  - simpl. rewrite E. reflexivity.
  - simpl. rewrite lookup_insert_eq. reflexivity.
Qed.

End ResolverFacts.

(** C4. Each resolver throws the configuration error with its fixed message
    when the token table, or the field it reads (typography for
    getTextStyle, colors for getTextColor), is null, undefined or missing;
    on every other input, whatever the name asked for and whatever the
    caches hold, it returns. *)
Theorem resolvers_throw_iff_table_missing (w : World) (tokens : option loc) :
  (forall variant,
      (lookupTokens w tokens ≫= typography = None ->
       fst (getTextStyle variant tokens w) = Throw (Error typographyError)) /\
      (forall typo, lookupTokens w tokens ≫= typography = Some typo ->
       exists r, fst (getTextStyle variant tokens w) = Return r)) /\
  (forall color,
      (lookupTokens w tokens ≫= colors = None ->
       fst (getTextColor color tokens w) = Throw (Error colorError)) /\
      (forall cols, lookupTokens w tokens ≫= colors = Some cols ->
       exists r, fst (getTextColor color tokens w) = Return r)).
Proof.
  split.
  - intros variant. rewrite getTextStyle_eq. split.
    + intros ->. reflexivity.
    + intros typo ->. cbv zeta.
      destruct (typographyCache w !! typographyCacheKey variant typo);
        eauto.
  - intros color. rewrite getTextColor_eq. split.
    + intros ->. reflexivity.
    + intros cols ->. destruct color as [[|u c]|]; eauto.
      destruct (isColorVariant (u :: c)); eauto. cbv zeta.
      destruct (colorCache w !! colorCacheKey (u :: c) cols); eauto.
Qed.

(** C9. Neither resolver writes to the caller's token tables: after a call
    of getTextStyle or of getTextColor, on any arguments and in any state,
    every token object of the store is what it was. *)
Theorem resolvers_leave_tokens (w : World) :
  (forall variant tokens,
      store (snd (getTextStyle variant tokens w)) = store w) /\
  (forall color tokens,
      store (snd (getTextColor color tokens w)) = store w).
Proof.
  split; intros; [apply getTextStyle_store | apply getTextColor_store].
Qed.




(** C6, as stated, fails: after a call for "surfaceVariant" on the default
    table, on a table that differs in textSecondary alone "surfaceVariant"
    answers the earlier table's value and "textSecondary" the current one. *)
Lemma getTextColor_alias_stale :
  let w1 := snd (getTextColor (Some (js "surfaceVariant")) (Some 1%positive)
                   (worldOf defaultTokens recoloredTokens)) in
  lookupTokens w1 (Some 2%positive) = Some recoloredTokens /\
  fst (getTextColor (Some (js "surfaceVariant")) (Some 2%positive) w1)
  = Return (Some (js "#666666")) /\
  fst (getTextColor (Some (js "textSecondary")) (Some 2%positive) w1)
  = Return (Some (js "#777777")).
Proof. cbv zeta. repeat split; vm_compute; reflexivity. Qed.

(** C6, amended. When the colour cache agrees with the table of the call
    (as it does after clearColorCache and as long as the calls since are
    made on that table), getTextColor answers tokens.colors.textSecondary
    for "surfaceVariant" and for "textSecondary" alike, the two calls made
    in the same state or one after the other. *)
Theorem getTextColor_legacy_alias (w : World) (l : loc) (t : DesignTokens)
    (cols : gmap jsstring jsstring) :
  store w !! l = Some t -> colors t = Some cols -> colorCacheFresh cols w ->
  fst (getTextColor (Some (js "surfaceVariant")) (Some l) w)
  = Return (cols !! js "textSecondary") /\
  fst (getTextColor (Some (js "textSecondary")) (Some l) w)
  = Return (cols !! js "textSecondary") /\
  fst (getTextColor (Some (js "textSecondary")) (Some l)
         (snd (getTextColor (Some (js "surfaceVariant")) (Some l) w)))
  = Return (cols !! js "textSecondary").
Proof.
  intros Hl Ht Hf.
  assert (Hlk : lookupTokens w (Some l) ≫= colors = Some cols).
  { unfold lookupTokens. simpl. rewrite Hl. exact Ht. }
  assert (R : forall w' c,
             lookupTokens w' (Some l) ≫= colors = Some cols ->
             colorCacheFresh cols w' -> isColorVariant c = true ->
             c <> [] ->
             fst (getTextColor (Some c) (Some l) w')
             = Return (resolveColor c cols)).
  { intros w' c Hlk' Hf' Hv Hne. rewrite getTextColor_eq, Hlk'.
    destruct c as [|u c]; [congruence |]. rewrite Hv. cbv zeta.
    destruct (colorCache w' !! colorCacheKey (u :: c) cols) as [v|] eqn:Ec;
      [| reflexivity].
    simpl. rewrite (Hf' _ _ Ec). reflexivity. }
  split; [| split].
  - apply (R w); [exact Hlk | exact Hf | reflexivity | discriminate].
  - apply (R w); [exact Hlk | exact Hf | reflexivity | discriminate].
  - apply R; [| | reflexivity | discriminate].
    + rewrite (lookupTokens_store w); [exact Hlk |].
      apply getTextColor_store.
    + apply colorCacheFresh_getTextColor; assumption.
Qed.

(** The amended C6 on the default table and an empty cache. *)
Lemma getTextColor_legacy_alias_witness :
  let w := worldOf defaultTokens recoloredTokens in
  store w !! 1%positive = Some defaultTokens /\
  colors defaultTokens = Some defaultColors /\
  colorCacheFresh defaultColors w /\
  fst (getTextColor (Some (js "surfaceVariant")) (Some 1%positive) w)
  = Return (defaultColors !! js "textSecondary") /\
  fst (getTextColor (Some (js "textSecondary")) (Some 1%positive) w)
  = Return (defaultColors !! js "textSecondary") /\
  fst (getTextColor (Some (js "textSecondary")) (Some 1%positive)
         (snd (getTextColor (Some (js "surfaceVariant")) (Some 1%positive)
                 w)))
  = Return (defaultColors !! js "textSecondary").
Proof.
  cbv zeta.
  assert (Hf : colorCacheFresh defaultColors
                 (worldOf defaultTokens recoloredTokens)).
  { intros color v H. simpl in H. rewrite lookup_empty in H. discriminate. }
  split; [reflexivity |]. split; [reflexivity |]. split; [exact Hf |].
  exact (getTextColor_legacy_alias (worldOf defaultTokens recoloredTokens)
           1%positive defaultTokens defaultColors eq_refl eq_refl Hf).
Defined.


(** ** The earlier revision of getTextColor *)

Section LegacyFacts.

(** On a colour name whose field of the table is a non-empty string the
    earlier revision answers that string. *)
Lemma Legacy_getTextColor_variant w tokens cols c field u v :
  c <> [] -> Legacy.isColorVariant c = true ->
  switchCase c colorCases = Some field ->
  lookupTokens w tokens ≫= colors = Some cols ->
  cols !! js field = Some (u :: v) ->
  fst (Legacy.getTextColor (Some c) tokens w) = Return (Some (u :: v)).
Proof.
  intros Hne Hv Hs Hc Hf. destruct c as [|a c]; [congruence |].
  unfold mbind in Hc.
  unfold Legacy.getTextColor. unfold_M. rewrite Hv, Hs, Hc. cbn [negb].
  cbn [option_bind]. rewrite Hf. reflexivity.
Qed.

(** With a non-empty tokens.colors.textSecondary it answers it for both
    names. *)
Lemma Legacy_getTextColor_alias w tokens cols u v :
  lookupTokens w tokens ≫= colors = Some cols ->
  cols !! js "textSecondary" = Some (u :: v) ->
  fst (Legacy.getTextColor (Some (js "surfaceVariant")) tokens w)
  = Return (Some (u :: v)) /\
  fst (Legacy.getTextColor (Some (js "textSecondary")) tokens w)
  = Return (Some (u :: v)).
Proof.
  intros Hc Hs. split.
  - apply (Legacy_getTextColor_variant w tokens cols _ "textSecondary");
      [discriminate | vm_compute; reflexivity | vm_compute; reflexivity
      | exact Hc | exact Hs].
  - apply (Legacy_getTextColor_variant w tokens cols _ "textSecondary");
      [discriminate | vm_compute; reflexivity | vm_compute; reflexivity
      | exact Hc | exact Hs].
Qed.

(** It has no guard: without a token table a literal colour passes through
    and a colour name meets the engine's TypeError. *)
Example Legacy_getTextColor_unguarded :
  let w := worldOf defaultTokens defaultTokens in
  fst (Legacy.getTextColor (Some (js "#FF5722")) None w)
  = Return (Some (js "#FF5722")) /\
  fst (Legacy.getTextColor (Some (js "textPrimary")) None w)
  = Throw TypeError /\
  fst (getTextColor (Some (js "#FF5722")) None w) = Throw (Error colorError).
Proof. cbv zeta. repeat split; vm_compute; reflexivity. Qed.

End LegacyFacts.

(** ** Lowering the strings of a pattern *)

Section LoweringFacts.

Lemma asciiLower_idem c : asciiLower (asciiLower c) = asciiLower c.
Proof.
  unfold asciiLower.
  destruct ((65 <=? c) && (c <=? 90)) eqn:E; [| rewrite E; reflexivity].
  apply andb_true_iff in E as [E1 E2]. apply N.leb_le in E1, E2.
  replace ((65 <=? c + 32) && (c + 32 <=? 90)) with false; [reflexivity |].
  symmetry. apply andb_false_iff. right. apply N.leb_gt. lia.
Qed.

Lemma in_class_forall (P : N -> Prop) (check : N * N -> bool) ranges c :
  (forall rg, check rg = true -> fst rg <= c <= snd rg -> P c) ->
  forallb check ranges = true -> in_class c ranges = true -> P c.
Proof.
  intros HP. unfold in_class.
  induction ranges as [|rg ranges IH]; simpl; [discriminate |].
  rewrite andb_true_iff, orb_true_iff, andb_true_iff, !N.leb_le.
  intros [Hc Hr] [Hin | Hin]; [apply (HP rg Hc Hin) | apply IH; assumption].
Qed.

Lemma range_tame_spec rg c :
  range_tame rg = true -> fst rg <= c <= snd rg -> tame c = true.
Proof.
  unfold range_tame, tame. rewrite !orb_true_iff, !N.ltb_lt.
  intros [H | H] Hc; [left; lia | right].
  unfold isSpace, in_class. apply existsb_exists in H as (sp & Hsp & H).
  apply existsb_exists. exists sp. split; [exact Hsp |].
  rewrite andb_true_iff, !N.leb_le in *. lia.
Qed.

Lemma range_caseless_spec rg c :
  range_caseless rg = true -> fst rg <= c <= snd rg -> asciiLower c = c.
Proof.
  unfold range_caseless, asciiLower. rewrite orb_true_iff, !N.ltb_lt.
  intros H Hc.
  replace ((65 <=? c) && (c <=? 90)) with false; [reflexivity |].
  symmetry. apply andb_false_iff. rewrite !N.leb_gt. lia.
Qed.

Lemma class_lower_closed_spec ranges c :
  class_lower_closed ranges = true -> in_class c ranges = true ->
  in_class (asciiLower c) ranges = true.
Proof.
  unfold class_lower_closed, asciiLower. intros H Hc.
  destruct ((65 <=? c) && (c <=? 90)) eqn:E; [| exact Hc].
  apply andb_true_iff in E as [E1 E2]. apply N.leb_le in E1, E2.
  rewrite forallb_forall in H. specialize (H c).
  rewrite Hc in H. apply H. unfold upperCodes.
  rewrite <- (N2Nat.id c). apply in_map, in_seq. lia.
Qed.

Lemma Matches_tame r s :
  tame_pattern r = true -> Matches r s -> forallb tame s = true.
Proof.
  unfold tame_pattern. intros Hr H.
  induction H as [| ranges c Hc | r1 r2 s1 s2 _ IH1 _ IH2 | r1 r2 s _ IH
                 | r1 r2 s _ IH | r | r s1 s2 _ IH1 _ IH2]; simpl in Hr;
    rewrite ?forallb_app, ?andb_true_iff in Hr.
  - reflexivity.
  - simpl. rewrite andb_true_r.
    apply (in_class_forall (fun c => tame c = true) range_tame ranges c);
      [intros rg; apply range_tame_spec | tauto | exact Hc].
  - rewrite forallb_app, IH1, IH2; tauto.
  - apply IH; tauto.
  - apply IH; tauto.
  - reflexivity.
  - rewrite forallb_app, IH1, IH2; auto.
Qed.

Lemma Matches_caseless r s :
  caseless_pattern r = true -> Matches r s -> map asciiLower s = s.
Proof.
  unfold caseless_pattern. intros Hr H.
  induction H as [| ranges c Hc | r1 r2 s1 s2 _ IH1 _ IH2 | r1 r2 s _ IH
                 | r1 r2 s _ IH | r | r s1 s2 _ IH1 _ IH2]; simpl in Hr;
    rewrite ?forallb_app, ?andb_true_iff in Hr.
  - reflexivity.
  - simpl. f_equal.
    apply (in_class_forall (fun c => asciiLower c = c) range_caseless
             ranges c);
      [intros rg; apply range_caseless_spec | tauto | exact Hc].
  - rewrite map_app, IH1, IH2; tauto.
  - apply IH; tauto.
  - apply IH; tauto.
  - reflexivity.
  - rewrite map_app, IH1, IH2; auto.
Qed.

Lemma Matches_lower r s :
  lower_closed_pattern r = true -> Matches r s ->
  Matches r (map asciiLower s).
Proof.
  unfold lower_closed_pattern. intros Hr H.
  induction H as [| ranges c Hc | r1 r2 s1 s2 _ IH1 _ IH2 | r1 r2 s _ IH
                 | r1 r2 s _ IH | r | r s1 s2 _ IH1 _ IH2]; simpl in Hr;
    rewrite ?forallb_app, ?andb_true_iff in Hr.
  - constructor.
  - constructor. apply class_lower_closed_spec; tauto.
  - rewrite map_app. constructor; [apply IH1 | apply IH2]; tauto.
  - apply MAltL, IH; tauto.
  - apply MAltR, IH; tauto.
  - constructor.
  - rewrite map_app. constructor; [apply IH1 | apply IH2]; auto.
Qed.

Lemma map_asciiLower_idem s :
  map asciiLower (map asciiLower s) = map asciiLower s.
Proof.
  induction s as [|c s IH]; simpl; [reflexivity |].
  rewrite asciiLower_idem, IH. reflexivity.
Qed.

End LoweringFacts.

(** ** normalizeColor *)

Section Normalize.

Variable toLowerCase : jsstring -> jsstring.

(** On a string of ASCII units and white space, toLowerCase takes A-Z to
    a-z and keeps the rest. *)
Hypothesis toLowerCase_ascii :
  forall s,
    forallb tame s = true -> toLowerCase s = map asciiLower s.

Lemma normalizeColor_invalid color :
  isValidColor color = false -> normalizeColor toLowerCase color = color.
Proof. unfold normalizeColor. intros ->. reflexivity. Qed.

Lemma normalizeColor_hex3 r g b :
  isValidHexColor [35; r; g; b] = true ->
  normalizeColor toLowerCase [35; r; g; b] = [35; r; r; g; g; b; b].
Proof.
  intros H. unfold normalizeColor, isValidColor. rewrite H. reflexivity.
Qed.

Lemma normalizeColor_other color :
  isValidColor color = true ->
  isValidHexColor color && (length color =? 4)%nat = false ->
  normalizeColor toLowerCase color = toLowerCase color.
Proof. unfold normalizeColor. intros -> ->. reflexivity. Qed.

(** C2. The three-digit branch doubles the digits as they are and returns
    before the lower-casing: normalizeColor("#ABC") is "#AABBCC", not
    "#aabbcc". *)
Theorem normalizeColor_ABC_keeps_case :
  normalizeColor toLowerCase (js "#ABC") = js "#AABBCC".
Proof. reflexivity. Qed.

(** C1. normalizeColor is not idempotent at "#ABC": the first pass gives
    "#AABBCC" and the second lower-cases it to "#aabbcc". *)
Theorem normalizeColor_twice_ABC :
  normalizeColor toLowerCase (js "#ABC") = js "#AABBCC" /\
  normalizeColor toLowerCase (normalizeColor toLowerCase (js "#ABC"))
  = js "#aabbcc" /\
  normalizeColor toLowerCase (normalizeColor toLowerCase (js "#ABC"))
  <> normalizeColor toLowerCase (js "#ABC").
Proof.
  assert (E : normalizeColor toLowerCase
                (normalizeColor toLowerCase (js "#ABC")) = js "#aabbcc").
  { change (normalizeColor toLowerCase (js "#ABC")) with (js "#AABBCC").
    rewrite normalizeColor_other by reflexivity.
    rewrite toLowerCase_ascii by reflexivity. reflexivity. }
  split; [reflexivity |]. split; [exact E |].
  rewrite E. discriminate.
Qed.


(** *** Where normalizeColor is idempotent *)

Lemma hex_after_hash s :
  isValidHexColor (35 :: s)
  = test (Alt (Times 3 hexdigit) (Times 6 hexdigit)) s.
Proof.
  unfold isValidHexColor.
  change (test pattern_hex (35 :: s)) with (test (deriv 35 pattern_hex) s).
  replace (deriv 35 pattern_hex)
    with (Alt (Times 3 hexdigit) (Times 6 hexdigit))
    by (vm_compute; reflexivity).
  reflexivity.
Qed.

Lemma hex3_test r g b :
  isValidHexColor [35; r; g; b]
  = in_class r [(65, 70); (97, 102); (48, 57)]
    && in_class g [(65, 70); (97, 102); (48, 57)]
    && in_class b [(65, 70); (97, 102); (48, 57)].
Proof.
  rewrite hex_after_hash. unfold hexdigit. cbn -[in_class].
  destruct (in_class r _); cbn -[in_class]; [| reflexivity].
  destruct (in_class g _); cbn -[in_class]; [| reflexivity].
  destruct (in_class b _); reflexivity.
Qed.

Lemma hex6_test a b c d e f :
  in_class a [(65, 70); (97, 102); (48, 57)] = true ->
  in_class b [(65, 70); (97, 102); (48, 57)] = true ->
  in_class c [(65, 70); (97, 102); (48, 57)] = true ->
  in_class d [(65, 70); (97, 102); (48, 57)] = true ->
  in_class e [(65, 70); (97, 102); (48, 57)] = true ->
  in_class f [(65, 70); (97, 102); (48, 57)] = true ->
  isValidHexColor [35; a; b; c; d; e; f] = true.
Proof.
  intros Ha Hb Hc Hd He Hf. rewrite hex_after_hash. unfold hexdigit.
  cbn -[in_class]. rewrite Ha. cbn -[in_class]. rewrite Hb.
  cbn -[in_class]. rewrite Hc. cbn -[in_class]. rewrite Hd.
  cbn -[in_class]. rewrite He. cbn -[in_class]. rewrite Hf. reflexivity.
Qed.

(** A valid colour of a pattern that is closed under lowering: its
    lower-cased form is a string of the pattern that toLowerCase keeps. *)
Lemma toLowerCase_stable r s :
  tame_pattern r = true -> lower_closed_pattern r = true ->
  test r s = true ->
  toLowerCase s = map asciiLower s /\
  test r (toLowerCase s) = true /\
  toLowerCase (toLowerCase s) = toLowerCase s.
Proof.
  intros Ht Hl H. apply test_Matches in H.
  assert (E : toLowerCase s = map asciiLower s).
  { apply toLowerCase_ascii, (Matches_tame r); assumption. }
  pose proof (Matches_lower r s Hl H) as Hn.
  rewrite E. split; [reflexivity |]. split; [apply test_Matches, Hn |].
  rewrite toLowerCase_ascii by (apply (Matches_tame r); assumption).
  apply map_asciiLower_idem.
Qed.

(** A valid colour of a pattern without upper-case letters is kept by
    toLowerCase. *)
Lemma toLowerCase_caseless r s :
  tame_pattern r = true -> caseless_pattern r = true ->
  test r s = true -> toLowerCase s = s.
Proof.
  intros Ht Hc H. apply test_Matches in H.
  rewrite toLowerCase_ascii by (apply (Matches_tame r); assumption).
  apply (Matches_caseless r); assumption.
Qed.

Lemma rgb_test s : isValidRgbColor s = true -> test pattern_rgb s = true.
Proof.
  unfold isValidRgbColor. destruct (test pattern_rgb s);
    [reflexivity | discriminate].
Qed.

Lemma hsl_test s : isValidHslColor s = true -> test pattern_hsl s = true.
Proof.
  unfold isValidHslColor. destruct (test pattern_hsl s);
    [reflexivity | discriminate].
Qed.

(** The second pass on the result of the three-digit branch. *)
Lemma normalizeColor_hex3_twice r g b :
  isValidHexColor [35; r; g; b] = true ->
  normalizeColor toLowerCase (normalizeColor toLowerCase [35; r; g; b])
  = map asciiLower [35; r; r; g; g; b; b].
Proof.
  intros H. rewrite (normalizeColor_hex3 r g b H).
  rewrite hex3_test, !andb_true_iff in H. destruct H as [[Hr Hg] Hb].
  assert (Hn : isValidHexColor [35; r; r; g; g; b; b] = true)
    by (apply hex6_test; assumption).
  rewrite normalizeColor_other.
  - apply toLowerCase_ascii, (Matches_tame pattern_hex); [reflexivity |].
    apply test_Matches, Hn.
  - unfold isValidColor. rewrite Hn. reflexivity.
  - rewrite Hn. reflexivity.
Qed.

(** normalizeColor is idempotent at every string but the three-digit hex
    colours with an upper-case digit, where the first pass keeps the case
    and the second lowers it. *)
Proposition normalizeColor_idempotent_iff s :
  normalizeColor toLowerCase (normalizeColor toLowerCase s)
  = normalizeColor toLowerCase s
  <-> ~ (isValidHexColor s = true /\ length s = 4%nat
         /\ map asciiLower s <> s).
Proof.
  destruct (isValidHexColor s && (length s =? 4)%nat) eqn:E3.
  - (* the three-digit branch *)
    apply andb_true_iff in E3 as [Hh Hl]. apply Nat.eqb_eq in Hl.
    destruct (hex_starts s Hh) as (s' & ->).
    destruct s' as [|r [|g [|b [|x s']]]]; try discriminate Hl.
    change (js "#" ++ [r; g; b]) with [35; r; g; b] in *.
    rewrite normalizeColor_hex3_twice, normalizeColor_hex3 by exact Hh.
    cbn [map]. change (asciiLower 35) with 35.
    split.
    + intros [= Hr _ Hg _ Hb _] (_ & _ & Hne). apply Hne.
      rewrite Hr, Hg, Hb. reflexivity.
    + intros Hn. destruct (decide (map asciiLower [35; r; g; b]
                                   = [35; r; g; b])) as [Heq | Hne].
      * cbn [map] in Heq. injection Heq as Hr Hg Hb.
        rewrite Hr, Hg, Hb. reflexivity.
      * destruct Hn. auto.
  - (* the other branches *)
    split; [intros _ (Hh & Hl & _); rewrite Hh in E3; simpl in E3;
            apply Nat.eqb_neq in E3; contradiction |].
    intros _. destruct (isValidColor s) eqn:Hv;
      [| rewrite !(normalizeColor_invalid s Hv); reflexivity].
    rewrite (normalizeColor_other s Hv E3).
    unfold isValidColor in Hv. rewrite !orb_true_iff in Hv.
    destruct Hv as [[[Hh | Hr] | Hs] | Hn].
    + (* six hex digits *)
      rewrite Hh in E3. simpl in E3.
      destruct (toLowerCase_stable pattern_hex s) as (El & Ht & Ei);
        [reflexivity | reflexivity | exact Hh |].
      fold (isValidHexColor (toLowerCase s)) in Ht.
      rewrite normalizeColor_other; [exact Ei | |].
      * unfold isValidColor. rewrite Ht. reflexivity.
      * rewrite Ht, El, length_map, E3. reflexivity.
    + assert (Es : toLowerCase s = s).
      { apply (toLowerCase_caseless pattern_rgb);
          [reflexivity | reflexivity | apply rgb_test, Hr]. }
      rewrite Es, normalizeColor_other; [exact Es | | exact E3].
      unfold isValidColor. rewrite Hr, orb_true_r. reflexivity.
    + assert (Es : toLowerCase s = s).
      { apply (toLowerCase_caseless pattern_hsl);
          [reflexivity | reflexivity | apply hsl_test, Hs]. }
      rewrite Es, normalizeColor_other; [exact Es | | exact E3].
      unfold isValidColor. rewrite Hs, !orb_true_r. reflexivity.
    + destruct (toLowerCase_stable pattern_named s) as (El & Ht & Ei);
        [vm_compute; reflexivity | vm_compute; reflexivity | exact Hn |].
      fold (isValidNamedColor (toLowerCase s)) in Ht.
      rewrite normalizeColor_other; [exact Ei | |].
      * unfold isValidColor. rewrite Ht, !orb_true_r. reflexivity.
      * rewrite (named_not_hex _ Ht). reflexivity.
Qed.

End Normalize.

(** C1 with the lowering of A-Z alone for toLowerCase. *)
Lemma normalizeColor_twice_ABC_witness :
  (forall s, forallb tame s = true -> map asciiLower s = map asciiLower s) /\
  normalizeColor (map asciiLower) (js "#ABC") = js "#AABBCC" /\
  normalizeColor (map asciiLower)
    (normalizeColor (map asciiLower) (js "#ABC")) = js "#aabbcc" /\
  normalizeColor (map asciiLower)
    (normalizeColor (map asciiLower) (js "#ABC"))
  <> normalizeColor (map asciiLower) (js "#ABC").
Proof.
  split; [reflexivity |].
  apply (normalizeColor_twice_ABC (map asciiLower)).
  intros s _. reflexivity.
Defined.

(** ** The cases of the package's test suites, on the embedding *)

Section TestSuites.

Example test_isValidHexColor :
  forallb (fun s => isValidHexColor (js s))
    ["#fff"; "#000"; "#abc"; "#123"; "#ffffff"; "#FF5733"]%string = true /\
  existsb (fun s => isValidHexColor (js s))
    ["#ff"; "#ffff"; "#ggg"; "ffffff"; "#12345"]%string = false.
Proof. split; vm_compute; reflexivity. Qed.

Example test_isValidRgbColor :
  forallb (fun s => isValidRgbColor (js s))
    ["rgb(255, 0, 0)"; "rgb(128, 128, 128)"; "rgba(255, 0, 0, 0.5)";
     "rgba(0, 255, 0, 1)"; "rgba(0, 0, 255, 0)"; "rgb(100%, 0%, 0%)";
     "rgb(50%, 50%, 50%)"]%string = true /\
  existsb (fun s => isValidRgbColor (js s))
    ["rgb(256, 0, 0)"; "rgb(255, -1, 0)"; "rgb(255, 0)"; "255, 0, 0"]%string
  = false.
Proof. split; vm_compute; reflexivity. Qed.

Example test_isValidHslColor :
  forallb (fun s => isValidHslColor (js s))
    ["hsl(0, 100%, 50%)"; "hsl(240, 100%, 50%)"; "hsla(0, 100%, 50%, 0.5)";
     "hsla(240, 100%, 50%, 0)"]%string = true /\
  existsb (fun s => isValidHslColor (js s))
    ["hsl(361, 100%, 50%)"; "hsl(120, 101%, 50%)"; "hsl(120, 100%, 101%)";
     "hsl(120, 100%)"; "120, 100%, 50%"; "hsl(361,0%,0%)"]%string = false.
Proof. split; vm_compute; reflexivity. Qed.

Example test_isValidNamedColor :
  forallb (fun s => isValidNamedColor (js s))
    ["red"; "blue"; "green"; "transparent"; "currentColor"]%string = true /\
  existsb (fun s => isValidNamedColor (js s))
    ["notacolor"; "color123"; ""; "red-blue"]%string = false.
Proof. split; vm_compute; reflexivity. Qed.

Example test_getColorFormat :
  map (fun s => getColorFormat (js s))
    ["#fff"; "#ffffff"; "rgb(255, 0, 0)"; "rgba(255, 0, 0, 0.5)";
     "hsl(0, 100%, 50%)"; "hsla(0, 100%, 50%, 0.5)"; "red"; "blue";
     "invalid"; ""]%string
  = [hex; hex; rgb; rgb; hsl; hsl; named; named; unknown; unknown].
Proof. vm_compute. reflexivity. Qed.

Example test_normalizeColor :
  map (fun s => normalizeColor (map asciiLower) (js s))
    ["#fff"; "#abc"; "#123"; "#ffffff"; "#FFFFFF"; "#ABCDEF"; "RED";
     "invalid"; ""; "rgb(255, 0, 0)"; "hsl(0, 100%, 50%)"]%string
  = map js
    ["#ffffff"; "#aabbcc"; "#112233"; "#ffffff"; "#ffffff"; "#abcdef"; "red";
     "invalid"; ""; "rgb(255, 0, 0)"; "hsl(0, 100%, 50%)"]%string.
Proof. vm_compute. reflexivity. Qed.

Example test_getTextStyle :
  let w := worldOf defaultTokens defaultTokens in
  fst (getTextStyle (js "bodyLarge") None w)
  = Throw (Error typographyError) /\
  fst (getTextStyle (js "headlineMedium") (Some 1%positive) w)
  = Return (Some (Style (style 28 "400"))) /\
  fst (getTextStyle (js "labelSmall") (Some 1%positive) w)
  = Return (Some (Style (style 11 "500"))) /\
  fst (getTextStyle (js "unknownVariant") (Some 1%positive) w)
  = Return (Some (Style (style 16 "400"))).
Proof. cbv zeta. repeat split; vm_compute; reflexivity. Qed.

Example test_getTextColor :
  let w := worldOf defaultTokens defaultTokens in
  fst (getTextColor (Some (js "textPrimary")) None w)
  = Throw (Error colorError) /\
  fst (getTextColor None (Some 1%positive) w)
  = Return (Some (js "#000000")) /\
  fst (getTextColor (Some (js "")) (Some 1%positive) w)
  = Return (Some (js "#000000")) /\
  fst (getTextColor (Some (js "#FF5722")) (Some 1%positive) w)
  = Return (Some (js "#FF5722")) /\
  fst (getTextColor (Some (js "unknownVariant")) (Some 1%positive) w)
  = Return (Some (js "unknownVariant")) /\
  fst (getTextColor (Some (js "onError")) (Some 1%positive) w)
  = Return (Some (js "#FFFFFF")) /\
  fst (getTextColor (Some (js "secondary")) (Some 1%positive) w)
  = Return (Some (js "#666666")) /\
  fst (getTextColor (Some (js "surfaceVariant")) (Some 1%positive) w)
  = Return (Some (js "#666666")).
Proof. cbv zeta. repeat split; vm_compute; reflexivity. Qed.

End TestSuites.

(** * Further properties of the package *)

(** ** isValidHexColor and isValidNamedColor, string by string *)

Section HexNamed.

Lemma Matches_Times_Class n ranges : forall s,
  Matches (Times n (Class ranges)) s <->
  length s = n /\ forallb (fun c => in_class c ranges) s = true.
Proof.
  induction n as [|n IH]; intros s; simpl.
  - split.
    + intros H. apply Matches_Eps_inv in H as ->. split; reflexivity.
    + intros [Hl _]. destruct s; [constructor | discriminate].
  - split.
    + intros H. apply Matches_Cat_inv in H as (s1 & s2 & -> & H1 & H2).
      apply Matches_Class_inv in H1 as (c & -> & Hc).
      apply IH in H2 as [Hl Hf]. simpl. rewrite Hl, Hc, Hf. split; reflexivity.
    + intros [Hl Hf]. destruct s as [|c s]; [discriminate |].
      simpl in Hl, Hf. apply andb_true_iff in Hf as [Hc Hf].
      apply (MCat _ _ [c] s); [constructor; exact Hc |].
      apply IH. split; [lia | exact Hf].
Qed.

Lemma LitCI_lower x c :
  isLowerLetter x = true ->
  in_class c [(asciiLower x, asciiLower x); (asciiUpper x, asciiUpper x)]
  = true <-> asciiLower c = x.
Proof.
  unfold isLowerLetter, in_class, asciiLower, asciiUpper; simpl.
  rewrite andb_true_iff, !N.leb_le. intros [H1 H2].
  replace ((65 <=? x) && (x <=? 90)) with false
    by (symmetry; apply andb_false_iff; rewrite !N.leb_gt; lia).
  replace ((97 <=? x) && (x <=? 122)) with true
    by (symmetry; apply andb_true_iff; rewrite !N.leb_le; lia).
  rewrite orb_false_r, orb_true_iff, !andb_true_iff, !N.leb_le.
  destruct ((65 <=? c) && (c <=? 90)) eqn:E.
  - apply andb_true_iff in E as [E1 E2]. apply N.leb_le in E1, E2. lia.
  - apply andb_false_iff in E. rewrite !N.leb_gt in E. lia.
Qed.

Lemma Matches_StrCI t : forall s,
  forallb isLowerLetter t = true ->
  Matches (StrCI t) s <-> map asciiLower s = t.
Proof.
  induction t as [|x t IH]; intros s Ht; simpl.
  - split.
    + intros H. apply Matches_Eps_inv in H as ->. reflexivity.
    + intros H. destruct s; [constructor | discriminate].
  - simpl in Ht. apply andb_true_iff in Ht as [Hx Ht]. split.
    + intros H. apply Matches_Cat_inv in H as (s1 & s2 & -> & H1 & H2).
      apply Matches_Class_inv in H1 as (c & -> & Hc).
      apply (LitCI_lower x c Hx) in Hc. apply (IH s2 Ht) in H2.
      simpl. rewrite Hc, H2. reflexivity.
    + intros H. destruct s as [|c s]; [discriminate |].
      simpl in H. injection H as Hc Hs.
      apply (MCat _ _ [c] s).
      * constructor. apply (LitCI_lower x c Hx), Hc.
      * apply (IH s Ht), Hs.
Qed.

Lemma Matches_AltList rs s :
  Matches (AltList rs) s <-> exists r, In r rs /\ Matches r s.
Proof.
  induction rs as [|r rs IH].
  - simpl. split; [intros H; destruct (Matches_Void_inv _ H) |].
    intros (r & [] & _).
  - destruct rs as [|r' rs].
    + simpl. split; [intros H; exists r; auto |].
      intros (r0 & [<- | []] & H). exact H.
    + change (AltList (r :: r' :: rs)) with (Alt r (AltList (r' :: rs))).
      split.
      * intros H. apply Matches_Alt_inv in H as [H | H].
        -- exists r. split; [left; reflexivity | exact H].
        -- apply IH in H as (r0 & Hin & H). exists r0.
           split; [right; exact Hin | exact H].
      * intros (r0 & [<- | Hin] & H); [apply MAltL, H |].
        apply MAltR, IH. eauto.
Qed.

Lemma color_names_lower n :
  In n color_names -> forallb isLowerLetter (js n) = true.
Proof.
  unfold color_names. intros H. cbn [In] in H.
  repeat (destruct H as [<- | H]; [vm_compute; reflexivity |]). destruct H.
Qed.

Lemma isValidHexColor_shape (s : jsstring) :
  isValidHexColor s = true <->
  exists ds, s = 35 :: ds /\ (length ds = 3%nat \/ length ds = 6%nat)
             /\ forallb isHexDigit ds = true.
Proof.
  unfold isValidHexColor, pattern_hex, hexdigit. rewrite test_Matches. split.
  - intros H. apply Matches_Cat_inv in H as (s1 & ds & -> & H1 & H2).
    apply Matches_Lit_inv in H1 as ->. exists ds. split; [reflexivity |].
    apply Matches_Alt_inv in H2 as [H2 | H2];
      apply Matches_Times_Class in H2 as [Hl Hf]; auto.
  - intros (ds & -> & Hl & Hf). apply (MCat _ _ [35] ds);
      [apply Matches_Lit |].
    destruct Hl as [Hl | Hl]; [apply MAltL | apply MAltR];
      apply Matches_Times_Class; auto.
Qed.

Lemma isValidNamedColor_shape (s : jsstring) :
  isValidNamedColor s = true <-> In (map asciiLower s) (map js color_names).
Proof.
  unfold isValidNamedColor, pattern_named.
  rewrite test_Matches, Matches_AltList. split.
  - intros (r & Hin & H). apply in_map_iff in Hin as (n & <- & Hn).
    apply Matches_StrCI in H; [| apply color_names_lower, Hn].
    rewrite H. apply in_map, Hn.
  - intros Hin. apply in_map_iff in Hin as (n & Hs & Hn).
    exists (StrCI (js n)). split; [apply in_map_iff; eauto |].
    apply Matches_StrCI; [apply color_names_lower, Hn | symmetry; exact Hs].
Qed.

End HexNamed.

(** X1. isValidHexColor accepts exactly the strings made of "#" and then
    three or six hex digits (0-9, a-f, A-F): no other length, no other
    first character. *)
Theorem isValidHexColor_iff (s : jsstring) :
  isValidHexColor s = true <->
  exists ds, s = 35 :: ds /\ (length ds = 3%nat \/ length ds = 6%nat)
             /\ forallb isHexDigit ds = true.
Proof. apply isValidHexColor_shape. Qed.

(** X2. isValidNamedColor accepts exactly the strings whose lowering of A-Z
    is one of the seventeen names of the pattern: the match is whole-string
    and blind to the case of ASCII letters only. *)
Theorem isValidNamedColor_iff (s : jsstring) :
  isValidNamedColor s = true <-> In (map asciiLower s) (map js color_names).
Proof. apply isValidNamedColor_shape. Qed.

(** ** isValidHslColor, and isValidRgbColor, string by string *)

Section HslFacts.

Lemma wf_hsl_spec t :
  wf_hsl t = true ->
  wf t = true /\ ch_percent (rt_c1 t) = false /\
  ch_percent (rt_c2 t) = true /\ ch_percent (rt_c3 t) = true.
Proof.
  unfold wf_hsl. rewrite !andb_true_iff, negb_true_iff. tauto.
Qed.

Lemma Matches_hue c :
  wf_channel c = true -> ch_percent c = false ->
  Matches (Between 1 3 digit) (render_channel c).
Proof.
  intros H Hp. apply wf_channel_spec in H as [Hd Hl].
  unfold render_channel. rewrite Hp, app_nil_r.
  apply Matches_digits_1_3; assumption.
Qed.

Lemma Matches_pct c :
  wf_channel c = true -> ch_percent c = true ->
  Matches pct_channel (render_channel c).
Proof.
  intros H Hp. apply wf_channel_spec in H as [Hd Hl].
  unfold render_channel, pct_channel. rewrite Hp.
  apply MCat; [apply Matches_digits_1_3; assumption | apply Matches_Lit].
Qed.

Lemma hsl_pattern_render t :
  wf_hsl t = true -> test pattern_hsl (render_hsl t) = true.
Proof.
  intros H. apply wf_hsl_spec in H as (Hwf & P1 & P2 & P3).
  unfold wf in Hwf. rewrite !andb_true_iff in Hwf.
  destruct Hwf as [[[[[[[[[H1 Hc1] H2] H3] Hc2] H4] H5] Hc3] H6] Ha].
  apply test_Matches. unfold pattern_hsl, render_hsl.
  apply MCat; [apply Matches_Str |].
  apply MCat; [apply (Matches_Opt_flag 97) |].
  apply (MCat _ _ [40]); [apply Matches_Lit |].
  apply MCat; [apply Matches_ws, H1 |].
  apply MCat; [apply Matches_hue; assumption |].
  apply MCat; [apply Matches_ws, H2 |].
  apply (MCat _ _ [44]); [apply Matches_Lit |].
  apply MCat; [apply Matches_ws, H3 |].
  apply MCat; [apply Matches_pct; assumption |].
  apply MCat; [apply Matches_ws, H4 |].
  apply (MCat _ _ [44]); [apply Matches_Lit |].
  apply MCat; [apply Matches_ws, H5 |].
  apply MCat; [apply Matches_pct; assumption |].
  apply MCat; [apply Matches_ws, H6 |].
  apply MCat; [apply Matches_alpha_group, Ha | apply Matches_Lit].
Qed.

Lemma digitRuns_render_hsl t : digitRuns (render_hsl t) = digitRuns (render t).
Proof.
  unfold render_hsl, render.
  rewrite (digitRuns_skip (js "hsl")), (digitRuns_skip (js "rgb"))
    by reflexivity.
  reflexivity.
Qed.

Lemma isValidHslColor_render t :
  wf_hsl t = true -> isValidHslColor (render_hsl t) = hsl_in_range t.
Proof.
  intros Hwf. unfold isValidHslColor, match_digits.
  rewrite (hsl_pattern_render t Hwf), digitRuns_render_hsl.
  apply wf_hsl_spec in Hwf as (Hwf & _).
  destruct (digitRuns_render t Hwf) as (more & ->).
  cbn [negb length map Nat.ltb Nat.leb]. unfold hsl_in_range.
  rewrite !(proj2 (N.leb_le 0 _) (N.le_0_l _)).
  cbn [andb]. rewrite !andb_true_r. reflexivity.
Qed.

Lemma Matches_hue_inv s :
  Matches (Between 1 3 digit) s ->
  exists c, wf_channel c = true /\ ch_percent c = false
            /\ s = render_channel c.
Proof.
  intros H. apply Matches_digits_1_3_inv in H as [Hd Hl].
  exists {| ch_digits := s; ch_percent := false |}.
  unfold wf_channel, render_channel; cbn [ch_digits ch_percent].
  rewrite Hd, app_nil_r, !andb_true_iff, !Nat.leb_le. tauto.
Qed.

Lemma Matches_pct_inv s :
  Matches pct_channel s ->
  exists c, wf_channel c = true /\ ch_percent c = true
            /\ s = render_channel c.
Proof.
  unfold pct_channel. intros H.
  apply Matches_Cat_inv in H as (ds & p & -> & Hd & Hp).
  apply Matches_digits_1_3_inv in Hd as [Hd Hl].
  apply Matches_Lit_inv in Hp as ->.
  exists {| ch_digits := ds; ch_percent := true |}.
  unfold wf_channel, render_channel; cbn [ch_digits ch_percent].
  rewrite Hd, !andb_true_iff, !Nat.leb_le. tauto.
Qed.

Lemma hsl_pattern_shape s :
  test pattern_hsl s = true -> exists t, wf_hsl t = true /\ s = render_hsl t.
Proof.
  unfold pattern_hsl. intros H. apply test_Matches in H.
  apply Matches_Cat_inv in H as (p & s1 & -> & Hp & H).
  apply Matches_Str_inv in Hp as ->.
  apply Matches_Cat_inv in H as (a & s2 & -> & Ha & H).
  apply Matches_Opt_flag_inv in Ha as (ba & ->).
  apply Matches_Cat_inv in H as (k & s3 & -> & Hk & H).
  apply Matches_Lit_inv in Hk as ->.
  apply Matches_Cat_inv in H as (w1 & s4 & -> & H1 & H).
  apply Matches_Cat_inv in H as (x1 & s5 & -> & Hc1 & H).
  apply Matches_Cat_inv in H as (w2 & s6 & -> & H2 & H).
  apply Matches_Cat_inv in H as (k1 & s7 & -> & Hk1 & H).
  apply Matches_Lit_inv in Hk1 as ->.
  apply Matches_Cat_inv in H as (w3 & s8 & -> & H3 & H).
  apply Matches_Cat_inv in H as (x2 & s9 & -> & Hc2 & H).
  apply Matches_Cat_inv in H as (w4 & s10 & -> & H4 & H).
  apply Matches_Cat_inv in H as (k2 & s11 & -> & Hk2 & H).
  apply Matches_Lit_inv in Hk2 as ->.
  apply Matches_Cat_inv in H as (w5 & s12 & -> & H5 & H).
  apply Matches_Cat_inv in H as (x3 & s13 & -> & Hc3 & H).
  apply Matches_Cat_inv in H as (w6 & s14 & -> & H6 & H).
  apply Matches_Cat_inv in H as (g & k3 & -> & Hg & Hk3).
  apply Matches_Lit_inv in Hk3 as ->.
  apply Matches_ws_inv in H1, H2, H3, H4, H5, H6.
  apply Matches_hue_inv in Hc1 as (c1 & Hc1 & P1 & ->).
  apply Matches_pct_inv in Hc2 as (c2 & Hc2 & P2 & ->).
  apply Matches_pct_inv in Hc3 as (c3 & Hc3 & P3 & ->).
  apply Matches_alpha_group_inv in Hg as (ag & Hg & ->).
  exists {| rt_a := ba; rt_w1 := w1; rt_c1 := c1; rt_w2 := w2; rt_w3 := w3;
            rt_c2 := c2; rt_w4 := w4; rt_w5 := w5; rt_c3 := c3; rt_w6 := w6;
            rt_alpha := ag |}.
  split; [| reflexivity]. unfold wf_hsl, wf; simpl.
  rewrite H1, H2, H3, H4, H5, H6, Hc1, Hc2, Hc3, Hg, P1, P2, P3. reflexivity.
Qed.

End HslFacts.

(** X3. isValidHslColor accepts exactly the strings of the hsl pattern
    ("hsl" or "hsla", a hue of one to three digits, two channels of one to
    three digits with a percent sign, an optional alpha text, white space
    allowed around each) whose hue is at most 360 and whose two other
    channels are at most 100. *)
Theorem isValidHslColor_iff (s : jsstring) :
  isValidHslColor s = true <->
  exists t, wf_hsl t = true /\ s = render_hsl t /\ hsl_in_range t = true.
Proof.
  split.
  - intros H. assert (Hp : test pattern_hsl s = true).
    { unfold isValidHslColor in H.
      destruct (test pattern_hsl s); [reflexivity | discriminate]. }
    apply hsl_pattern_shape in Hp as (t & Hwf & ->).
    rewrite (isValidHslColor_render t Hwf) in H. eauto.
  - intros (t & Hwf & -> & Hr). rewrite isValidHslColor_render; assumption.
Qed.

(** X4. isValidRgbColor accepts exactly the strings of the rgb pattern
    ("rgb" or "rgba", three channels of one to three digits each with an
    optional percent sign, an optional alpha text, white space allowed
    around each) whose three channels are at most 255. *)
Theorem isValidRgbColor_iff (s : jsstring) :
  isValidRgbColor s = true <->
  exists t, wf t = true /\ s = render t /\ channels_in_range t = true.
Proof. apply isValidRgbColor_shape. Qed.

(** X5. In an hsl()/hsla() string the alpha is held to the shape of its
    text alone, as in rgb(): when the hue and the two channels pass, every
    alpha group of the pattern's shape is accepted, whatever its value. *)
Theorem isValidHslColor_alpha_shape_only (t : rgbText)
    (g : option (jsstring * alpha * jsstring)) :
  wf_hsl t = true -> hsl_in_range t = true -> wf_alpha_group g = true ->
  isValidHslColor (render_hsl (with_alpha g t)) = true.
Proof.
  intros Hwf Hr Hg. rewrite isValidHslColor_render; [exact Hr |].
  apply wf_hsl_spec in Hwf as (Hwf & P1 & P2 & P3).
  unfold wf_hsl, wf in *. cbn [with_alpha rt_w1 rt_c1 rt_w2 rt_w3 rt_c2 rt_w4
    rt_w5 rt_c3 rt_w6 rt_alpha]. rewrite Hg, P1, P2, P3, !andb_true_r.
  apply andb_true_iff in Hwf as [Hwf _]. exact Hwf.
Qed.

(** X5 at "hsl(360, 100%, 50%)" with the alpha 9. *)
Lemma isValidHslColor_alpha_shape_only_witness :
  wf_hsl hsl_360 = true /\ hsl_in_range hsl_360 = true /\
  wf_alpha_group alpha_9 = true /\
  render_hsl (with_alpha alpha_9 hsl_360) = js "hsl(360, 100%, 50%, 9)" /\
  isValidHslColor (js "hsl(360, 100%, 50%, 9)") = true.
Proof.
  split; [reflexivity |]. split; [reflexivity |]. split; [reflexivity |].
  split; [reflexivity |].
  change (js "hsl(360, 100%, 50%, 9)")
    with (render_hsl (with_alpha alpha_9 hsl_360)).
  apply (isValidHslColor_alpha_shape_only hsl_360 alpha_9); reflexivity.
Defined.

(** ** normalizeColor and the formats *)

Section NormalizeFormats.

Variable toLowerCase : jsstring -> jsstring.

Hypothesis toLowerCase_ascii :
  forall s, forallb tame s = true -> toLowerCase s = map asciiLower s.

Lemma getColorFormat_hex s : isValidHexColor s = true -> getColorFormat s = hex.
Proof. unfold getColorFormat. intros ->. reflexivity. Qed.

Lemma getColorFormat_rgb s : isValidRgbColor s = true -> getColorFormat s = rgb.
Proof.
  intros H. unfold getColorFormat. rewrite (rgb_not_hex s H), H. reflexivity.
Qed.

Lemma getColorFormat_hsl s : isValidHslColor s = true -> getColorFormat s = hsl.
Proof.
  intros H. unfold getColorFormat.
  rewrite (hsl_not_hex s H), (hsl_not_rgb s H), H. reflexivity.
Qed.

Lemma getColorFormat_named s :
  isValidNamedColor s = true -> getColorFormat s = named.
Proof.
  intros H. unfold getColorFormat.
  rewrite (named_not_hex s H), (named_not_rgb s H), (named_not_hsl s H), H.
  reflexivity.
Qed.

Lemma normalizeColor_hex_form s :
  isValidHexColor s = true ->
  isValidHexColor (normalizeColor toLowerCase s) = true /\
  length (normalizeColor toLowerCase s) = 7%nat.
Proof.
  intros Hh. destruct (proj1 (isValidHexColor_shape s) Hh) as (ds & -> & Hl & _).
  destruct Hl as [Hl | Hl].
  - destruct ds as [|r [|g [|b [|x ds]]]]; try discriminate Hl.
    rewrite (normalizeColor_hex3 toLowerCase r g b Hh).
    split; [| reflexivity].
    rewrite hex3_test, !andb_true_iff in Hh. destruct Hh as [[Hr Hg] Hb].
    apply hex6_test; assumption.
  - destruct (toLowerCase_stable toLowerCase toLowerCase_ascii pattern_hex
                (35 :: ds)) as (El & Ht & _);
      [reflexivity | reflexivity | exact Hh |].
    rewrite normalizeColor_other.
    + split; [exact Ht |]. rewrite El, length_map. simpl. rewrite Hl.
      reflexivity.
    + unfold isValidColor. rewrite Hh. reflexivity.
    + rewrite Hh. simpl. rewrite Hl. reflexivity.
Qed.

(** X6. normalizeColor never changes what a string is taken for: the format
    getColorFormat gives to the result is the format of the argument, so a
    valid colour stays valid in its own format and an invalid one stays
    invalid. *)
Theorem normalizeColor_keeps_format (s : jsstring) :
  getColorFormat (normalizeColor toLowerCase s) = getColorFormat s.
Proof.
  destruct (isValidColor s) eqn:Hv;
    [| rewrite (normalizeColor_invalid toLowerCase s Hv); reflexivity].
  pose proof Hv as Hv'. unfold isValidColor in Hv'.
  rewrite !orb_true_iff in Hv'. destruct Hv' as [[[Hh | Hr] | Hs] | Hn].
  - rewrite (getColorFormat_hex s Hh). apply getColorFormat_hex.
    apply normalizeColor_hex_form, Hh.
  - rewrite normalizeColor_other;
      [| exact Hv | rewrite (rgb_not_hex s Hr); reflexivity].
    rewrite (toLowerCase_caseless toLowerCase toLowerCase_ascii pattern_rgb);
      [reflexivity | reflexivity | reflexivity | apply rgb_test, Hr].
  - rewrite normalizeColor_other;
      [| exact Hv | rewrite (hsl_not_hex s Hs); reflexivity].
    rewrite (toLowerCase_caseless toLowerCase toLowerCase_ascii pattern_hsl);
      [reflexivity | reflexivity | reflexivity | apply hsl_test, Hs].
  - rewrite normalizeColor_other;
      [| exact Hv | rewrite (named_not_hex s Hn); reflexivity].
    destruct (toLowerCase_stable toLowerCase toLowerCase_ascii pattern_named s)
      as (_ & Ht & _);
      [vm_compute; reflexivity | vm_compute; reflexivity | exact Hn |].
    rewrite (getColorFormat_named s Hn). apply getColorFormat_named, Ht.
Qed.

(** X7. A valid hex colour, of three or of six digits, is always normalized
    to a valid hex colour of six digits ("#" and six hex digits). *)
Theorem normalizeColor_hex_six_digits (s : jsstring) :
  isValidHexColor s = true ->
  isValidHexColor (normalizeColor toLowerCase s) = true /\
  length (normalizeColor toLowerCase s) = 7%nat.
Proof. apply normalizeColor_hex_form. Qed.

(** X8. normalizeColor is idempotent exactly away from the three-digit hex
    colours that hold an upper-case digit: there the second pass lowers
    what the first pass kept, everywhere else a second pass changes
    nothing. *)
Theorem normalizeColor_idempotent_exactly (s : jsstring) :
  normalizeColor toLowerCase (normalizeColor toLowerCase s)
  = normalizeColor toLowerCase s
  <-> ~ (isValidHexColor s = true /\ length s = 4%nat
         /\ map asciiLower s <> s).
Proof. apply normalizeColor_idempotent_iff, toLowerCase_ascii. Qed.

End NormalizeFormats.

(** X6 at "RED", with the lowering of A-Z alone for toLowerCase. *)
Lemma normalizeColor_keeps_format_witness :
  (forall s, forallb tame s = true -> map asciiLower s = map asciiLower s) /\
  getColorFormat (normalizeColor (map asciiLower) (js "RED"))
  = getColorFormat (js "RED").
Proof.
  split; [reflexivity |].
  apply (normalizeColor_keeps_format (map asciiLower)).
  intros s _. reflexivity.
Defined.

(** X7 at "#FfF". *)
Lemma normalizeColor_hex_six_digits_witness :
  (forall s, forallb tame s = true -> map asciiLower s = map asciiLower s) /\
  isValidHexColor (js "#FfF") = true /\
  isValidHexColor (normalizeColor (map asciiLower) (js "#FfF")) = true /\
  length (normalizeColor (map asciiLower) (js "#FfF")) = 7%nat.
Proof.
  split; [reflexivity |]. split; [reflexivity |].
  apply (normalizeColor_hex_six_digits (map asciiLower));
    [intros s _; reflexivity | reflexivity].
Defined.

(** X8 at "#A0c" (not idempotent) and at "rgb(1, 2, 3)" (idempotent). *)
Lemma normalizeColor_idempotent_exactly_witness :
  (forall s, forallb tame s = true -> map asciiLower s = map asciiLower s) /\
  normalizeColor (map asciiLower) (normalizeColor (map asciiLower) (js "#A0c"))
  <> normalizeColor (map asciiLower) (js "#A0c") /\
  normalizeColor (map asciiLower)
    (normalizeColor (map asciiLower) (js "rgb(1, 2, 3)"))
  = normalizeColor (map asciiLower) (js "rgb(1, 2, 3)").
Proof.
  split; [reflexivity |]. split.
  - intros H.
    apply (normalizeColor_idempotent_exactly (map asciiLower)
             (fun s _ => eq_refl) (js "#A0c")) in H.
    apply H. repeat split; [vm_compute; discriminate].
  - apply (normalizeColor_idempotent_exactly (map asciiLower)
             (fun s _ => eq_refl) (js "rgb(1, 2, 3)")).
    intros (H & _). vm_compute in H. discriminate.
Defined.

(** ** The colour names, the switch and the console *)

Section MapperFacts.

Lemma switchCase_variant c field :
  switchCase c colorCases = Some field -> isColorVariant c = true.
Proof.
  unfold colorCases. cbn [switchCase]. intros H.
  repeat (case_bool_decide; [subst c; vm_compute; reflexivity |]).
  discriminate.
Qed.

Lemma isColorVariant_switch c :
  isColorVariant c = true <-> is_Some (switchCase c colorCases).
Proof.
  split.
  - intros H. apply isColorVariant_case in H as (field & H). eauto.
  - intros (field & H). apply (switchCase_variant c field H).
Qed.

Lemma getColor_default c cols w :
  isColorVariant c = false ->
  getColor c cols w
  = (Return (cols !! js "textPrimary"),
     if production w then w
     else snd (console_warn (js "Unknown color variant: " ++ c) w)).
Proof.
  intros H. destruct (switchCase c colorCases) as [field|] eqn:E.
  - rewrite (switchCase_variant c field E) in H. discriminate.
  - unfold getColor. rewrite E. unfold_M. destruct w as [st tc cc [|] co];
      reflexivity.
Qed.

End MapperFacts.

(** X9. COLOR_VARIANT_SET and the switch of MaterialColorMapper.getColor
    name the same colours: a string is in the set exactly when the switch
    has a case for it, so the default branch of the mapper is met by no
    colour of the set. *)
Theorem color_set_is_switch (c : jsstring) :
  isColorVariant c = true <-> is_Some (switchCase c colorCases).
Proof. apply isColorVariant_switch. Qed.

(** X10. On a string outside the colour names the mapper answers
    tokens.colors.textPrimary; outside production it writes one warning,
    "Unknown color variant: " and the string, to the console, in production
    none; it touches neither the caches nor the token objects. *)
Theorem getColor_unknown (c : jsstring) (cols : gmap jsstring jsstring)
    (w : World) :
  isColorVariant c = false ->
  fst (getColor c cols w) = Return (cols !! js "textPrimary") /\
  console (snd (getColor c cols w))
  = (if production w then console w
     else console w ++ [js "Unknown color variant: " ++ c]) /\
  store (snd (getColor c cols w)) = store w /\
  typographyCache (snd (getColor c cols w)) = typographyCache w /\
  colorCache (snd (getColor c cols w)) = colorCache w.
Proof.
  intros H. rewrite (getColor_default c cols w H).
  destruct (production w); repeat split; reflexivity.
Qed.

(** X10 at "teal", outside production. *)
Lemma getColor_unknown_witness :
  let w := worldOf defaultTokens defaultTokens in
  isColorVariant (js "teal") = false /\
  fst (getColor (js "teal") defaultColors w) = Return (Some (js "#000000")) /\
  console (snd (getColor (js "teal") defaultColors w))
  = [js "Unknown color variant: teal"].
Proof.
  cbv zeta. split; [vm_compute; reflexivity |].
  destruct (getColor_unknown (js "teal") defaultColors
              (worldOf defaultTokens defaultTokens))
    as (H1 & H2 & _); [vm_compute; reflexivity |].
  split; [rewrite H1; vm_compute; reflexivity | rewrite H2; reflexivity].
Defined.

(** X11. The two caches are apart and the resolvers are silent: a call of
    getTextStyle leaves the colour cache and the console as they were, and a
    call of getTextColor leaves the typography cache and the console as
    they were (the warning of the mapper's default branch is out of its
    reach). *)
Theorem resolvers_keep_apart (w : World) :
  (forall variant tokens,
      colorCache (snd (getTextStyle variant tokens w)) = colorCache w /\
      console (snd (getTextStyle variant tokens w)) = console w) /\
  (forall color tokens,
      typographyCache (snd (getTextColor color tokens w)) = typographyCache w
      /\ console (snd (getTextColor color tokens w)) = console w).
Proof.
  split.
  - intros variant tokens. rewrite getTextStyle_eq.
    destruct (lookupTokens w tokens ≫= typography) as [typo|];
      [| split; reflexivity].
    cbv zeta.
    destruct (typographyCache w !! typographyCacheKey variant typo);
      split; reflexivity.
  - intros color tokens. rewrite getTextColor_eq.
    destruct (lookupTokens w tokens ≫= colors) as [cols|];
      [| split; reflexivity].
    destruct color as [[|u c]|]; try (split; reflexivity).
    destruct (isColorVariant (u :: c)); [| split; reflexivity]. cbv zeta.
    destruct (colorCache w !! colorCacheKey (u :: c) cols);
      split; reflexivity.
Qed.

(** X12. Memoization settles at once: the same call made again right after
    answers what the first call answered and changes the state no further,
    for getTextStyle and for getTextColor, whether the first call hit,
    missed or threw. *)
Theorem resolvers_repeat (w : World) :
  (forall variant tokens,
      getTextStyle variant tokens (snd (getTextStyle variant tokens w))
      = getTextStyle variant tokens w) /\
  (forall color tokens,
      getTextColor color tokens (snd (getTextColor color tokens w))
      = getTextColor color tokens w).
Proof.
  split.
  - intros variant tokens.
    rewrite (getTextStyle_eq variant tokens
               (snd (getTextStyle variant tokens w))).
    rewrite (lookupTokens_store w) by apply getTextStyle_store.
    rewrite (getTextStyle_eq variant tokens w).
    destruct (lookupTokens w tokens ≫= typography) as [typo|];
      [| reflexivity].
    cbv zeta.
    destruct (typographyCache w !! typographyCacheKey variant typo) as [v|]
      eqn:E; simpl.
    + rewrite E. reflexivity.
    + rewrite lookup_insert_eq. reflexivity.
  - intros color tokens.
    rewrite (getTextColor_eq color tokens
               (snd (getTextColor color tokens w))).
    rewrite (lookupTokens_store w) by apply getTextColor_store.
    rewrite (getTextColor_eq color tokens w).
    destruct (lookupTokens w tokens ≫= colors) as [cols|]; [| reflexivity].
    destruct color as [[|u c]|]; try reflexivity.
    destruct (isColorVariant (u :: c)); [| reflexivity]. cbv zeta.
    destruct (colorCache w !! colorCacheKey (u :: c) cols) as [v|] eqn:E;
      simpl.
    + rewrite E. reflexivity.
    + rewrite lookup_insert_eq. reflexivity.
Qed.

(** ** Tables that share their cache keys *)

Section SharedKeys.

Lemma getTextColor_same_signals color tk1 tk2 cols1 cols2 w :
  lookupTokens w tk1 ≫= colors = Some cols1 ->
  lookupTokens w tk2 ≫= colors = Some cols2 ->
  size cols1 = size cols2 ->
  cols1 !! js "textPrimary" = cols2 !! js "textPrimary" ->
  fst (getTextColor color tk2 (snd (getTextColor color tk1 w)))
  = fst (getTextColor color tk1 w).
Proof.
  intros H1 H2 Hs Hp.
  assert (Ek : forall c, colorCacheKey c cols2 = colorCacheKey c cols1).
  { intros c. unfold colorCacheKey. rewrite Hs, Hp. reflexivity. }
  rewrite (getTextColor_eq color tk2).
  rewrite (lookupTokens_store w) by apply getTextColor_store.
  rewrite H2, getTextColor_eq, H1.
  destruct color as [[|u c]|];
    [cbn [fst snd]; rewrite Hp; reflexivity |
    | cbn [fst snd]; rewrite Hp; reflexivity].
  destruct (isColorVariant (u :: c)) eqn:Hv; [| reflexivity]. cbv zeta.
  rewrite Ek.
  destruct (colorCache w !! colorCacheKey (u :: c) cols1) as [v|] eqn:E;
    simpl.
  - rewrite E. reflexivity.
  - rewrite lookup_insert_eq. reflexivity.
Qed.

End SharedKeys.

(** X13. Whenever two token tables have the same number of typography
    entries and the same font size of bodyLarge (16 standing for a missing
    or zero one), a call of getTextStyle on the second right after the same
    call on the first answers what the first answered, whatever the second
    table holds under that name. *)
Theorem getTextStyle_shared_key (variant : jsstring) (tk1 tk2 : option loc)
    (typo1 typo2 : gmap jsstring TextStyle) (w : World) :
  lookupTokens w tk1 ≫= typography = Some typo1 ->
  lookupTokens w tk2 ≫= typography = Some typo2 ->
  size typo1 = size typo2 ->
  bodyLargeFontSize typo1 = bodyLargeFontSize typo2 ->
  fst (getTextStyle variant tk2 (snd (getTextStyle variant tk1 w)))
  = fst (getTextStyle variant tk1 w).
Proof. apply getTextStyle_same_signals. Qed.

(** X13 on the default table and the table with another bodyLarge weight,
    at "bodyLarge". *)
Lemma getTextStyle_shared_key_witness :
  let w := worldOf defaultTokens reweightedTokens in
  lookupTokens w (Some 1%positive) ≫= typography = Some defaultTypography /\
  lookupTokens w (Some 2%positive) ≫= typography
  = Some (<[js "bodyLarge" := style 16 "700"]> defaultTypography) /\
  fst (getTextStyle (js "bodyLarge") (Some 2%positive)
         (snd (getTextStyle (js "bodyLarge") (Some 1%positive) w)))
  = fst (getTextStyle (js "bodyLarge") (Some 1%positive) w).
Proof.
  cbv zeta. split; [reflexivity |]. split; [reflexivity |].
  apply (getTextStyle_shared_key (js "bodyLarge") (Some 1%positive)
           (Some 2%positive) defaultTypography
           (<[js "bodyLarge" := style 16 "700"]> defaultTypography));
    [reflexivity | reflexivity | vm_compute; reflexivity
    | vm_compute; reflexivity].
Defined.

(** X14. Whenever two token tables have the same number of colours and the
    same textPrimary, a call of getTextColor on the second right after the
    same call on the first answers what the first answered, for every
    colour argument: a colour name is answered from the first table. *)
Theorem getTextColor_shared_key (color : option jsstring)
    (tk1 tk2 : option loc) (cols1 cols2 : gmap jsstring jsstring)
    (w : World) :
  lookupTokens w tk1 ≫= colors = Some cols1 ->
  lookupTokens w tk2 ≫= colors = Some cols2 ->
  size cols1 = size cols2 ->
  cols1 !! js "textPrimary" = cols2 !! js "textPrimary" ->
  fst (getTextColor color tk2 (snd (getTextColor color tk1 w)))
  = fst (getTextColor color tk1 w).
Proof. apply getTextColor_same_signals. Qed.

(** X14 on the default table and the table with another textSecondary, at
    "secondary". *)
Lemma getTextColor_shared_key_witness :
  let w := worldOf defaultTokens recoloredTokens in
  lookupTokens w (Some 1%positive) ≫= colors = Some defaultColors /\
  lookupTokens w (Some 2%positive) ≫= colors
  = Some (<[js "textSecondary" := js "#777777"]> defaultColors) /\
  fst (getTextColor (Some (js "secondary")) (Some 2%positive)
         (snd (getTextColor (Some (js "secondary")) (Some 1%positive) w)))
  = fst (getTextColor (Some (js "secondary")) (Some 1%positive) w).
Proof.
  cbv zeta. split; [reflexivity |]. split; [reflexivity |].
  apply (getTextColor_shared_key (Some (js "secondary")) (Some 1%positive)
           (Some 2%positive) defaultColors
           (<[js "textSecondary" := js "#777777"]> defaultColors));
    [reflexivity | reflexivity | vm_compute; reflexivity
    | vm_compute; reflexivity].
Defined.

(** ** What a cache key determines *)

Section Keys.

Lemma js_inj s1 : forall s2, js s1 = js s2 -> s1 = s2.
Proof.
  induction s1 as [|a s1 IH]; intros [|b s2] H; simpl in H;
    try discriminate; [reflexivity |].
  injection H as Ha Hs. f_equal; [| apply IH, Hs].
  rewrite <- (ascii_N_embedding a), <- (ascii_N_embedding b), Ha.
  reflexivity.
Qed.

Lemma pretty_N_char_no_underscore x : N_of_ascii (pretty_N_char x) <> 95.
Proof.
  unfold pretty_N_char. repeat case_match; intros Eus; vm_compute in Eus;
    discriminate Eus.
Qed.

Lemma pretty_N_go_no_underscore x : forall s,
  ~ In 95 (js s) -> ~ In 95 (js (pretty_N_go x s)).
Proof.
  induction (N.lt_wf_0 x) as [x _ IH]. intros s Hs.
  destruct (decide (x = 0)) as [-> | Hx].
  - rewrite pretty_N_go_0. exact Hs.
  - rewrite pretty_N_go_step by lia. apply IH.
    + apply N.div_lt; lia.
    + simpl. intros [H | H]; [| exact (Hs H)].
      exact (pretty_N_char_no_underscore (x `mod` 10) H).
Qed.

Lemma pretty_N_no_underscore (n : N) : ~ In 95 (js (pretty n)).
Proof.
  unfold pretty, pretty_N. case_decide.
  - simpl. intros [E | []]. discriminate E.
  - apply pretty_N_go_no_underscore. simpl. tauto.
Qed.

Lemma pretty_nat_no_underscore (n : nat) : ~ In 95 (js (pretty n)).
Proof. apply (pretty_N_no_underscore (N.of_nat n)). Qed.

Lemma pretty_Z_no_underscore (z : Z) : ~ In 95 (js (pretty z)).
Proof.
  destruct z as [|p|p].
  - simpl. intros [H | []]. discriminate H.
  - apply (pretty_N_no_underscore (Npos p)).
  - change (pretty (Zneg p)) with (String "-" (pretty (Npos p))).
    simpl. intros [H | H]; [discriminate H |].
    exact (pretty_N_no_underscore (Npos p) H).
Qed.

(** Cutting at the first underscore, and at the last. *)
Lemma split_first a : forall a' b b',
  ~ In 95 a -> ~ In 95 a' -> a ++ 95 :: b = a' ++ 95 :: b' ->
  a = a' /\ b = b'.
Proof.
  induction a as [|x a IH]; intros [|y a'] b b' Ha Ha' E; simpl in *.
  - injection E as ->. auto.
  - injection E as <- _. tauto.
  - injection E as -> _. tauto.
  - injection E as -> E. destruct (IH a' b b') as [-> ->]; auto.
Qed.

Lemma split_last a a' b b' :
  ~ In 95 b -> ~ In 95 b' -> a ++ 95 :: b = a' ++ 95 :: b' ->
  a = a' /\ b = b'.
Proof.
  intros Hb Hb' E. apply (f_equal (@rev N)) in E.
  rewrite !rev_app_distr in E. simpl in E. rewrite <- !app_assoc in E.
  simpl in E. apply split_first in E as [Eb Ea].
  - split; [rewrite <- (rev_involutive a), Ea | rewrite <- (rev_involutive b), Eb];
      apply rev_involutive.
  - intros H. apply in_rev in H. exact (Hb H).
  - intros H. apply in_rev in H. exact (Hb' H).
Qed.

Lemma isColorVariant_no_underscore c :
  isColorVariant c = true -> ~ In 95 c.
Proof.
  unfold isColorVariant, COLOR_VARIANT_SET. intros H.
  apply bool_decide_eq_true in H. apply elem_of_list_to_set in H.
  cbn [map] in H.
  repeat (apply elem_of_cons in H as [-> | H];
          [vm_compute; intuition discriminate |]).
  apply elem_of_nil in H. destruct H.
Qed.

Lemma typographyCacheKey_cut v typo :
  typographyCacheKey v typo
  = (v ++ 95 :: js (pretty (size typo)))
    ++ 95 :: js (pretty (bodyLargeFontSize typo)).
Proof. unfold typographyCacheKey. rewrite <- app_assoc. reflexivity. Qed.

End Keys.

(** X15. The key of the typography cache stands for exactly the name asked
    for, the number of entries of the table and the font size of its
    bodyLarge (16 for none or zero): two calls share a key if and only if
    they agree on the three, whatever characters the names hold. *)
Theorem typographyCacheKey_exact (v1 v2 : jsstring)
    (typo1 typo2 : gmap jsstring TextStyle) :
  typographyCacheKey v1 typo1 = typographyCacheKey v2 typo2 <->
  v1 = v2 /\ size typo1 = size typo2
  /\ bodyLargeFontSize typo1 = bodyLargeFontSize typo2.
Proof.
  split.
  - rewrite !typographyCacheKey_cut. intros E.
    apply split_last in E as [E Ef]; [| apply pretty_Z_no_underscore ..].
    apply split_last in E as [Ev En]; [| apply pretty_nat_no_underscore ..].
    apply js_inj in Ef, En.
    split; [exact Ev |]. split; [apply (inj pretty), En | apply (inj pretty), Ef].
  - intros (-> & Hs & Hf). unfold typographyCacheKey. rewrite Hs, Hf.
    reflexivity.
Qed.

(** X16. For colour names the key of the colour cache stands for exactly the
    name, the number of colours of the table and the text of its
    textPrimary ("undefined" for none): two calls on colour names share a
    key if and only if they agree on the three. *)
Theorem colorCacheKey_exact (c1 c2 : jsstring)
    (cols1 cols2 : gmap jsstring jsstring) :
  isColorVariant c1 = true -> isColorVariant c2 = true ->
  colorCacheKey c1 cols1 = colorCacheKey c2 cols2 <->
  c1 = c2 /\ size cols1 = size cols2
  /\ showString (cols1 !! js "textPrimary")
     = showString (cols2 !! js "textPrimary").
Proof.
  intros H1 H2. split.
  - unfold colorCacheKey. intros E.
    apply split_first in E as [Ec E];
      [| apply isColorVariant_no_underscore; assumption ..].
    apply split_first in E as [En Et]; [| apply pretty_nat_no_underscore ..].
    apply js_inj in En.
    split; [exact Ec |]. split; [apply (inj pretty), En | exact Et].
  - intros (-> & Hs & Ht). unfold colorCacheKey. rewrite Hs, Ht.
    reflexivity.
Qed.

(** X16 at "primary" and "secondary" on the default table: the keys
    differ. *)
Lemma colorCacheKey_exact_witness :
  isColorVariant (js "primary") = true /\
  isColorVariant (js "secondary") = true /\
  colorCacheKey (js "primary") defaultColors
  <> colorCacheKey (js "secondary") defaultColors.
Proof.
  split; [vm_compute; reflexivity |]. split; [vm_compute; reflexivity |].
  intros E.
  apply (colorCacheKey_exact (js "primary") (js "secondary") defaultColors
           defaultColors) in E as (E & _);
    [discriminate E | vm_compute; reflexivity | vm_compute; reflexivity].
Defined.

(** ** Runs of calls on one table *)

Section Runs.

Lemma getTextStyle_fresh variant tokens typo w :
  lookupTokens w tokens ≫= typography = Some typo ->
  typographyCacheFresh typo w ->
  fst (getTextStyle variant tokens w) = Return (getStyle variant typo).
Proof.
  intros Ht Hf. rewrite getTextStyle_eq, Ht. cbv zeta.
  destruct (typographyCache w !! typographyCacheKey variant typo) as [v|]
    eqn:E; [| reflexivity].
  simpl. rewrite (Hf _ _ E). reflexivity.
Qed.

Lemma getTextStyles_fresh tokens typo variants : forall w,
  lookupTokens w tokens ≫= typography = Some typo ->
  typographyCacheFresh typo w ->
  fst (getTextStyles variants tokens w)
  = map (fun v => Return (getStyle v typo)) variants.
Proof.
  induction variants as [|v vs IH]; intros w Ht Hf; [reflexivity |].
  cbn [getTextStyles map].
  pose proof (getTextStyle_fresh v tokens typo w Ht Hf) as E.
  pose proof (typographyCacheFresh_getTextStyle typo v tokens w Ht Hf) as Hf1.
  pose proof (getTextStyle_store v tokens w) as Hs.
  destruct (getTextStyle v tokens w) as [r w1]. simpl in E, Hf1, Hs.
  specialize (IH w1). rewrite (lookupTokens_store w w1 tokens Hs) in IH.
  specialize (IH Ht Hf1).
  destruct (getTextStyles vs tokens w1) as [rs w2]. simpl in IH.
  simpl. rewrite E, IH. reflexivity.
Qed.

Lemma getTextColor_fresh color tokens cols w :
  lookupTokens w tokens ≫= colors = Some cols ->
  colorCacheFresh cols w ->
  fst (getTextColor color tokens w) = Return (resolveTextColor color cols).
Proof.
  intros Ht Hf. rewrite getTextColor_eq, Ht. unfold resolveTextColor.
  destruct color as [[|u c]|]; try reflexivity.
  destruct (isColorVariant (u :: c)); [| reflexivity]. cbv zeta.
  destruct (colorCache w !! colorCacheKey (u :: c) cols) as [v|] eqn:E;
    [| reflexivity].
  simpl. rewrite (Hf _ _ E). reflexivity.
Qed.

Lemma getTextColors_fresh tokens cols colours : forall w,
  lookupTokens w tokens ≫= colors = Some cols ->
  colorCacheFresh cols w ->
  fst (getTextColors colours tokens w)
  = map (fun c => Return (resolveTextColor c cols)) colours.
Proof.
  induction colours as [|c cs IH]; intros w Ht Hf; [reflexivity |].
  cbn [getTextColors map].
  pose proof (getTextColor_fresh c tokens cols w Ht Hf) as E.
  pose proof (colorCacheFresh_getTextColor cols c tokens w Ht Hf) as Hf1.
  pose proof (getTextColor_store c tokens w) as Hs.
  destruct (getTextColor c tokens w) as [r w1]. simpl in E, Hf1, Hs.
  specialize (IH w1). rewrite (lookupTokens_store w w1 tokens Hs) in IH.
  specialize (IH Ht Hf1).
  destruct (getTextColors cs tokens w1) as [rs w2]. simpl in IH.
  simpl. rewrite E, IH. reflexivity.
Qed.

End Runs.

(** X17. Clearing repairs the typography cache: after
    clearTypographyCache, in a run of calls of getTextStyle of any length
    on one token table, every call answers what that table resolves to (the
    entry under the name, else the member inherited from Object.prototype
    under that name, else its bodyLarge entry), whatever the cache held
    before. *)
Theorem getTextStyle_after_clear (tokens : option loc)
    (typo : gmap jsstring TextStyle) (variants : list jsstring) (w : World) :
  lookupTokens w tokens ≫= typography = Some typo ->
  fst (getTextStyles variants tokens (snd (clearTypographyCache w)))
  = map (fun v => Return (getStyle v typo)) variants.
Proof.
  intros Ht. apply getTextStyles_fresh.
  - rewrite (lookupTokens_store w); [exact Ht | reflexivity].
  - apply typographyCacheFresh_clear.
Qed.

(** X17 after a call on the default table has filled the cache: the run on
    the table with another titleSmall answers that table's entries, and the
    inherited member at toString. *)
Lemma getTextStyle_after_clear_witness :
  let w := snd (getTextStyle (js "titleSmall") (Some 1%positive)
                  (worldOf defaultTokens restyledTokens)) in
  lookupTokens w (Some 2%positive) ≫= typography
  = Some (<[js "titleSmall" := style 15 "500"]> defaultTypography) /\
  fst (getTextStyle (js "titleSmall") (Some 2%positive) w)
  = Return (Some (Style (style 14 "500"))) /\
  fst (getTextStyles
         [js "titleSmall"; js "nope"; js "toString"; js "titleSmall"]
         (Some 2%positive) (snd (clearTypographyCache w)))
  = [Return (Some (Style (style 15 "500")));
     Return (Some (Style (style 16 "400")));
     Return (Some (Inherited (js "toString")));
     Return (Some (Style (style 15 "500")))].
Proof.
  cbv zeta. split; [reflexivity |]. split; [vm_compute; reflexivity |].
  rewrite (getTextStyle_after_clear (Some 2%positive)
             (<[js "titleSmall" := style 15 "500"]> defaultTypography));
    [vm_compute; reflexivity | reflexivity].
Defined.

(** X18. Clearing repairs the colour cache: after clearColorCache, in a run
    of calls of getTextColor of any length on one token table, every call
    answers from that table: textPrimary for no colour or the empty string,
    the string itself for a string that is no colour name, and the field
    the name stands for otherwise. *)
Theorem getTextColor_after_clear (tokens : option loc)
    (cols : gmap jsstring jsstring) (colours : list (option jsstring))
    (w : World) :
  lookupTokens w tokens ≫= colors = Some cols ->
  fst (getTextColors colours tokens (snd (clearColorCache w)))
  = map (fun c => Return (resolveTextColor c cols)) colours.
Proof.
  intros Ht. apply getTextColors_fresh.
  - rewrite (lookupTokens_store w); [exact Ht | reflexivity].
  - apply colorCacheFresh_clear.
Qed.

(** X18 after a call on the default table has filled the cache. *)
Lemma getTextColor_after_clear_witness :
  let w := snd (getTextColor (Some (js "secondary")) (Some 1%positive)
                  (worldOf defaultTokens recoloredTokens)) in
  lookupTokens w (Some 2%positive) ≫= colors
  = Some (<[js "textSecondary" := js "#777777"]> defaultColors) /\
  fst (getTextColor (Some (js "secondary")) (Some 2%positive) w)
  = Return (Some (js "#666666")) /\
  fst (getTextColors [Some (js "secondary"); None; Some (js "#FF5722")]
         (Some 2%positive) (snd (clearColorCache w)))
  = [Return (Some (js "#777777")); Return (Some (js "#000000"));
     Return (Some (js "#FF5722"))].
Proof.
  cbv zeta. split; [reflexivity |]. split; [vm_compute; reflexivity |].
  rewrite (getTextColor_after_clear (Some 2%positive)
             (<[js "textSecondary" := js "#777777"]> defaultColors));
    [vm_compute; reflexivity | reflexivity].
Defined.

(** ** The text style names *)

(** X19. isTextStyleVariant accepts exactly the names that
    getAllTextStyleVariants lists, and that list holds fifteen names, no
    name twice. *)
Theorem isTextStyleVariant_iff_listed (value : jsstring) :
  (isTextStyleVariant value = true <-> In value getAllTextStyleVariants) /\
  NoDup getAllTextStyleVariants /\ length getAllTextStyleVariants = 15%nat.
Proof.
  split; [| split; [| reflexivity]].
  - unfold isTextStyleVariant, TEXT_STYLE_VARIANT_SET, getAllTextStyleVariants.
    rewrite bool_decide_eq_true, elem_of_list_to_set. apply list_elem_of_In.
  - apply (bool_decide_unpack _). vm_compute. reflexivity.
Qed.

(** ** The earlier revision of getTextColor against the later one *)

Section Revisions.

Lemma Legacy_isColorVariant_eq c : Legacy.isColorVariant c = isColorVariant c.
Proof.
  apply Bool.eq_true_iff_eq.
  unfold Legacy.isColorVariant, Legacy.validVariants, isColorVariant,
    COLOR_VARIANT_SET.
  rewrite existsb_exists, bool_decide_eq_true, elem_of_list_to_set,
    list_elem_of_In.
  split.
  - intros (v & Hin & Hv). apply bool_decide_eq_true in Hv as <-. exact Hin.
  - intros Hin. exists c. split; [exact Hin | apply bool_decide_eq_true].
    reflexivity.
Qed.

Lemma resolveColor_switch c field cols :
  switchCase c colorCases = Some field ->
  switchCase c colorCases ≫= (fun f => cols !! js f) = resolveColor c cols.
Proof.
  intros H. unfold resolveColor, colorField. rewrite H. reflexivity.
Qed.

(** The earlier revision as one case analysis. *)
Lemma Legacy_getTextColor_eq color tokens w :
  Legacy.getTextColor color tokens w =
  (match color with
   | None | Some [] =>
       match lookupTokens w tokens ≫= colors with
       | None => Throw TypeError
       | Some cols => Return (cols !! js "textPrimary")
       end
   | Some c =>
       if isColorVariant c then
         match lookupTokens w tokens ≫= colors with
         | None => Throw TypeError
         | Some cols =>
             Return (Some match resolveColor c cols with
                          | Some (u :: v) => u :: v
                          | _ => c
                          end)
         end
       else Return (Some c)
   end, w).
Proof.
  unfold Legacy.getTextColor. unfold_M. cbv beta iota.
  change (option_bind _ _ colors (lookupTokens w tokens))
    with (lookupTokens w tokens ≫= colors).
  destruct color as [[|u c]|].
  - destruct (lookupTokens w tokens ≫= colors); reflexivity.
  - rewrite Legacy_isColorVariant_eq.
    destruct (isColorVariant (u :: c)) eqn:Hv; [| reflexivity].
    cbn [negb]. destruct (lookupTokens w tokens ≫= colors) as [cols|];
      [| reflexivity].
    destruct (isColorVariant_case _ Hv) as (field & Hf).
    change (option_bind _ _ (fun field => cols !! js field)
              (switchCase (u :: c) colorCases))
      with (switchCase (u :: c) colorCases ≫= (fun f => cols !! js f)).
    rewrite (resolveColor_switch _ field cols Hf).
    destruct (resolveColor (u :: c) cols) as [[|x y]|]; reflexivity.
  - destruct (lookupTokens w tokens ≫= colors); reflexivity.
Qed.

End Revisions.

(** X20. The two revisions of getTextColor agree wherever the earlier one
    is at home: with a colors table present, a cache that agrees with it,
    and, when the argument is a colour name, a non-empty string in the
    field the name stands for, both answer the same. *)
Theorem getTextColor_revisions_agree (color : option jsstring)
    (tokens : option loc) (cols : gmap jsstring jsstring) (w : World) :
  lookupTokens w tokens ≫= colors = Some cols ->
  colorCacheFresh cols w ->
  (forall c, color = Some c -> isColorVariant c = true ->
             exists u v, resolveColor c cols = Some (u :: v)) ->
  fst (Legacy.getTextColor color tokens w)
  = fst (getTextColor color tokens w).
Proof.
  intros Ht Hf Hn. rewrite (getTextColor_fresh color tokens cols w Ht Hf).
  rewrite Legacy_getTextColor_eq, Ht. unfold resolveTextColor.
  destruct color as [[|u c]|]; try reflexivity. cbn [fst].
  destruct (isColorVariant (u :: c)) eqn:Hv; [| reflexivity].
  destruct (Hn (u :: c) eq_refl Hv) as (x & y & ->). reflexivity.
Qed.

(** X20 on the default table and an empty cache, at "onError". *)
Lemma getTextColor_revisions_agree_witness :
  let w := worldOf defaultTokens defaultTokens in
  lookupTokens w (Some 1%positive) ≫= colors = Some defaultColors /\
  colorCacheFresh defaultColors w /\
  resolveColor (js "onError") defaultColors = Some (js "#FFFFFF") /\
  fst (Legacy.getTextColor (Some (js "onError")) (Some 1%positive) w)
  = fst (getTextColor (Some (js "onError")) (Some 1%positive) w).
Proof.
  cbv zeta.
  assert (Hf : colorCacheFresh defaultColors
                 (worldOf defaultTokens defaultTokens)).
  { intros color v H. simpl in H. rewrite lookup_empty in H. discriminate. }
  split; [reflexivity |]. split; [exact Hf |].
  split; [vm_compute; reflexivity |].
  apply (getTextColor_revisions_agree (Some (js "onError")) (Some 1%positive)
           defaultColors); [reflexivity | exact Hf |].
  intros c [= <-] _. exists 35, (js "FFFFFF"). vm_compute. reflexivity.
Defined.

(** X21. The earlier revision answers the colour name itself when the field
    the name stands for is missing or the empty string (its
    [colorMap[color] || color]), in any state. *)
Theorem Legacy_getTextColor_falls_back (c : jsstring) (tokens : option loc)
    (cols : gmap jsstring jsstring) (w : World) :
  isColorVariant c = true ->
  lookupTokens w tokens ≫= colors = Some cols ->
  resolveColor c cols = None \/ resolveColor c cols = Some [] ->
  fst (Legacy.getTextColor (Some c) tokens w) = Return (Some c).
Proof.
  intros Hv Ht Hr. rewrite Legacy_getTextColor_eq, Ht.
  destruct c as [|u c]; [vm_compute in Hv; discriminate |].
  rewrite Hv. destruct Hr as [-> | ->]; reflexivity.
Qed.

(** X21 on the default table without its onError field. *)
Lemma Legacy_getTextColor_falls_back_witness :
  let t := {| colors := Some (delete (js "onError") defaultColors);
              typography := None; otherFields := ∅ |} in
  let w := worldOf t t in
  isColorVariant (js "onError") = true /\
  lookupTokens w (Some 1%positive) ≫= colors
  = Some (delete (js "onError") defaultColors) /\
  resolveColor (js "onError") (delete (js "onError") defaultColors) = None /\
  fst (Legacy.getTextColor (Some (js "onError")) (Some 1%positive) w)
  = Return (Some (js "onError")).
Proof.
  cbv zeta. split; [vm_compute; reflexivity |]. split; [reflexivity |].
  split; [vm_compute; reflexivity |].
  apply (Legacy_getTextColor_falls_back (js "onError") (Some 1%positive)
           (delete (js "onError") defaultColors));
    [vm_compute; reflexivity | reflexivity | left; vm_compute; reflexivity].
Defined.

(** X22. The earlier revision has no guard of its own: it never throws the
    configuration error, and it meets the engine's TypeError exactly when
    the table or its colors is missing and the colour is absent, empty or a
    colour name; a string that is no colour name passes through even
    without a table. It never changes the state. *)
Theorem Legacy_getTextColor_throws (color : option jsstring)
    (tokens : option loc) (w : World) :
  (fst (Legacy.getTextColor color tokens w) = Throw TypeError <->
   lookupTokens w tokens ≫= colors = None /\
   match color with
   | Some (u :: c) => isColorVariant (u :: c) = true
   | _ => True
   end) /\
  (forall message,
      fst (Legacy.getTextColor color tokens w) <> Throw (Error message)) /\
  snd (Legacy.getTextColor color tokens w) = w.
Proof.
  rewrite Legacy_getTextColor_eq. cbn [fst snd].
  split; [| split; [| reflexivity]].
  - destruct color as [[|u c]|];
      try (destruct (lookupTokens w tokens ≫= colors);
           split; [discriminate | intros [[=] _] | tauto | tauto]).
    destruct (isColorVariant (u :: c));
      [| split; [discriminate | intros [_ [=]]]].
    destruct (lookupTokens w tokens ≫= colors);
      split; try discriminate; try tauto. intros [[=] _].
  - intros message. destruct color as [[|u c]|];
      try (destruct (lookupTokens w tokens ≫= colors); discriminate).
    destruct (isColorVariant (u :: c)); [| discriminate].
    destruct (lookupTokens w tokens ≫= colors); discriminate.
Qed.

(** ** The case of letters in the validators *)

Section CaseBlind.

Lemma isHexDigit_lower c : isHexDigit (asciiLower c) = isHexDigit c.
Proof.
  unfold isHexDigit, in_class, asciiLower; simpl.
  destruct ((65 <=? c) && (c <=? 90)) eqn:E; [| reflexivity].
  apply andb_true_iff in E as [E1 E2]. apply N.leb_le in E1, E2.
  apply Bool.eq_true_iff_eq.
  rewrite !orb_true_iff, !andb_true_iff, !N.leb_le. lia.
Qed.

Lemma asciiLower_hash c : asciiLower c = 35 <-> c = 35.
Proof.
  unfold asciiLower. destruct ((65 <=? c) && (c <=? 90)) eqn:E.
  - apply andb_true_iff in E as [E1 E2]. apply N.leb_le in E1, E2. lia.
  - tauto.
Qed.

Lemma isValidHexColor_lower s :
  isValidHexColor (map asciiLower s) = isValidHexColor s.
Proof.
  apply Bool.eq_true_iff_eq. rewrite !isValidHexColor_shape. split.
  - intros (ds & E & Hl & Hf). destruct s as [|c s]; [discriminate |].
    simpl in E. injection E as Ec <-. apply asciiLower_hash in Ec as ->.
    exists s. rewrite length_map in Hl. split; [reflexivity |].
    split; [exact Hl |].
    rewrite <- Hf. clear. induction s as [|c s IH]; simpl; [reflexivity |].
    rewrite isHexDigit_lower, IH. reflexivity.
  - intros (ds & -> & Hl & Hf). exists (map asciiLower ds).
    rewrite length_map. split; [reflexivity |]. split; [exact Hl |].
    rewrite <- Hf. clear. induction ds as [|c s IH]; simpl; [reflexivity |].
    rewrite isHexDigit_lower, IH. reflexivity.
Qed.

Lemma isValidNamedColor_lower s :
  isValidNamedColor (map asciiLower s) = isValidNamedColor s.
Proof.
  apply Bool.eq_true_iff_eq. rewrite !isValidNamedColor_shape.
  rewrite map_asciiLower_idem. reflexivity.
Qed.

End CaseBlind.

(** X23. isValidHexColor and isValidNamedColor are blind to the case of
    ASCII letters: lowering A-Z in a string changes neither verdict. The rgb
    and hsl validators are not: "RGB(0,0,0)" is rejected and its lowering
    accepted. *)
Theorem validators_and_case (s : jsstring) :
  isValidHexColor (map asciiLower s) = isValidHexColor s /\
  isValidNamedColor (map asciiLower s) = isValidNamedColor s /\
  isValidRgbColor (js "RGB(0,0,0)") = false /\
  isValidRgbColor (map asciiLower (js "RGB(0,0,0)")) = true /\
  isValidHslColor (js "HSL(0,0%,0%)") = false /\
  isValidHslColor (map asciiLower (js "HSL(0,0%,0%)")) = true.
Proof.
  split; [apply isValidHexColor_lower |].
  split; [apply isValidNamedColor_lower |].
  repeat split; vm_compute; reflexivity.
Qed.
